(** * devvit-mcp: the [devvit_logs] tool (src/tools/logs.ts)

    A shallow embedding of the tool's input schema, of the construction of
    the argument vector, and of the event handlers that the promise executor
    attaches to the child process, followed by the properties of the tool's
    observable contract. *)

From Stdlib Require Import List String Ascii NArith ZArith Bool Lia Permutation.
Import ListNotations.
Open Scope list_scope.

(** ** JavaScript strings and values *)

Module Js.

(** A JavaScript string is a sequence of UTF-16 code units; [length] and
    [slice] count code units. *)
Definition code_unit := N.
Definition jsstring := list code_unit.

(** A string literal of the source whose characters are all ASCII. *)
Definition lit (s : string) : jsstring :=
  map N_of_ascii (list_ascii_of_string s).

(** [str.length] *)
Definition length (s : jsstring) : Z := Z.of_nat (List.length s).

(** [String.prototype.slice(start)] with the end left out: a negative
    start counts from the end and is clamped at 0, a positive one is
    clamped at the length. *)
Definition slice (s : jsstring) (start : Z) : jsstring :=
  let len := length s in
  let from := if (start <? 0)%Z then Z.max (len + start) 0
              else Z.min start len in
  skipn (Z.to_nat from) s.

(** Truthiness of a string: every string but the empty one. *)
Definition truthy (s : jsstring) : bool :=
  match s with
  | [] => false
  | _ :: _ => true
  end.

(** Truthiness of a [string | undefined]. *)
Definition truthy_opt (o : option jsstring) : bool :=
  match o with
  | Some s => truthy s
  | None => false
  end.

(** [a || b] on strings. *)
Definition or (a b : jsstring) : jsstring := if truthy a then a else b.

(** [Array.prototype.join(sep)] on an array of strings. *)
Fixpoint join (sep : jsstring) (xs : list jsstring) : jsstring :=
  match xs with
  | [] => []
  | [x] => x
  | x :: rest => x ++ sep ++ join sep rest
  end.

(** The values a caller can put in a field of the parameter object, as far
    as the schema tells them apart. *)
Inductive value :=
| VUndefined
| VBoolean (b : bool)
| VString (s : jsstring)
| VOther.   (* null, a number, an array, an object *)

(** An object literal: its own properties in insertion order. *)
Definition object := list (string * value).

(** Property read [o[k]]; a missing property reads as [undefined]. *)
Fixpoint get (o : object) (k : string) : value :=
  match o with
  | [] => VUndefined
  | (k', v) :: rest => if String.eqb k k' then v else get rest k
  end.

End Js.

Arguments Js.lit s%_string.

Abbreviation jsstring := Js.jsstring.

(** ** zod schemas

    A schema is a parser of values; [None] is a validation failure, in which
    case the handler is not run. *)

Module Zod.

Definition schema (A : Type) := Js.value -> option A.

(** [z.string()] *)
Definition string : schema jsstring := fun v =>
  match v with
  | Js.VString s => Some s
  | _ => None
  end.

(** [z.boolean()] *)
Definition boolean : schema bool := fun v =>
  match v with
  | Js.VBoolean b => Some b
  | _ => None
  end.

(** [.optional()]: [undefined] is accepted and kept. *)
Definition optional {A} (s : schema A) : schema (option A) := fun v =>
  match v with
  | Js.VUndefined => Some None
  | _ => option_map Some (s v)
  end.

(** [.default(d)]: [undefined] is replaced by [d] before the inner schema
    runs, so the output is never [undefined]. *)
Definition default {A} (s : schema (option A)) (d : A) : schema A := fun v =>
  match v with
  | Js.VUndefined => Some d
  | _ => match s v with
         | Some (Some a) => Some a
         | Some None => Some d
         | None => None
         end
  end.

End Zod.

(** ** The tool *)

(** The handler's [params], after the schema has run. *)
Record Params := {
  subreddit : jsstring;
  app : option jsstring;
  config : option jsstring;
  connect : bool;
  dateformat : option jsstring;
  json : bool;
  since : option jsstring;
  verbose : bool
}.

(** [inputSchema]: a [z.object] reads each declared key of the input and
    drops the others. *)
Definition inputSchema (raw : Js.object) : option Params :=
  match Zod.string (Js.get raw "subreddit"),
        Zod.optional Zod.string (Js.get raw "app"),
        Zod.optional Zod.string (Js.get raw "config"),
        Zod.default (Zod.optional Zod.boolean) false (Js.get raw "connect"),
        Zod.optional Zod.string (Js.get raw "dateformat"),
        Zod.default (Zod.optional Zod.boolean) false (Js.get raw "json"),
        Zod.optional Zod.string (Js.get raw "since"),
        Zod.default (Zod.optional Zod.boolean) true (Js.get raw "verbose")
  with
  | Some sub, Some a, Some c, Some n, Some d, Some j, Some s, Some v =>
      Some {| subreddit := sub; app := a; config := c; connect := n;
              dateformat := d; json := j; since := s; verbose := v |}
  | _, _, _, _, _, _, _, _ => None
  end.

(** The result envelope. *)
Record ContentItem := { type : jsstring; text : jsstring }.
Record Envelope := { content : list ContentItem; isError : bool }.

Definition textItem (t : jsstring) : ContentItem :=
  {| type := Js.lit "text"; text := t |}.

(** *** Argument vector *)

(** [if (c) args.push(...xs)] for a boolean [c]. *)
Definition pushIf (c : bool) (xs : list jsstring) (args : list jsstring)
  : list jsstring :=
  if c then args ++ xs else args.

(** [if (o) args.push(...f o)] for an optional string [o]. *)
Definition pushStr (o : option jsstring) (f : jsstring -> list jsstring)
  (args : list jsstring) : list jsstring :=
  match o with
  | Some s => if Js.truthy s then args ++ f s else args
  | None => args
  end.

(** Lines 37 and 52-60 of the handler: the array [args] after the pushes. *)
Definition buildArgs (p : Params) : list jsstring :=
  let args := [Js.lit "logs"; subreddit p] in
  (* Positional argument - app name *)
  let args := pushStr (app p) (fun a => [a]) args in
  (* Flags *)
  let args := pushStr (config p) (fun c => [Js.lit "--config"; c]) args in
  let args := pushIf (connect p) [Js.lit "--connect"] args in
  let args := pushStr (dateformat p) (fun d => [Js.lit "--dateformat"; d]) args in
  let args := pushIf (json p) [Js.lit "--json"] args in
  let args := pushStr (since p) (fun s => [Js.lit "--since"; s]) args in
  let args := pushIf (verbose p) [Js.lit "--verbose"] args in
  args.

(** *** Output normalisation *)

Definition MAX_LENGTH : Z := 2000.

(** U+2026 HORIZONTAL ELLIPSIS, one code unit. *)
Definition ellipsis : Js.code_unit := 8230%N.

(** [truncate] of the close handler. *)
Definition truncate (str : jsstring) : jsstring :=
  if (Js.length str >? MAX_LENGTH)%Z
  then ellipsis :: Js.slice str (- MAX_LENGTH)
  else str.

(** *** The child process and the promise *)

Inductive Stdio := Ignore | Pipe.

(** The call [spawn('devvit', args, { stdio, env: process.env, cwd })]. *)
Record SpawnCall := {
  command : jsstring;
  argv : list jsstring;
  stdio : list Stdio;
  cwd : option jsstring
}.

Inductive Signal := SIGINT.

(** The value an ['error'] event carries. *)
Inductive JsError :=
| ErrorObject (message : jsstring)   (* [error instanceof Error] *)
| Thrown (asString : jsstring).      (* anything else, with its [String(error)] *)

(** [error instanceof Error ? error.message : String(error)] *)
Definition errorText (e : JsError) : jsstring :=
  match e with
  | ErrorObject m => m
  | Thrown s => s
  end.

(** What the event loop can deliver to the callbacks the executor
    registered. A chunk is given as its [chunk.toString()]. *)
Inductive Event :=
| StdoutData (chunk : jsstring)
| StderrData (chunk : jsstring)
| ErrorEvent (error : JsError)
| TimerFired
| Close (code : option Z).   (* [None] is [null]: ended by a signal *)

(** The lines sent to the logger. *)
Inductive LogEntry :=
| InfoExecuting (commandLine : jsstring)
| ErrorSpawnFailed (msg : jsstring)
| InfoTimeout (ms : N)
| InfoCompleted
| WarnExited (code : option Z).

(** The variables the callbacks close over. [timer] is the pending
    [setTimeout] with its delay, [None] once it fired or was cleared;
    [promise] is the promise's settled value. *)
Record Child := {
  stdoutData : jsstring;
  stderrData : jsstring;
  timer : option N;
  killed : list Signal;
  promise : option Envelope;
  logged : list LogEntry
}.

(** [resolve(e)]: a promise settles once; later calls are ignored. *)
Definition resolve (e : Envelope) (st : Child) : Child :=
  match promise st with
  | Some _ => st
  | None =>
      {| stdoutData := stdoutData st; stderrData := stderrData st;
         timer := timer st; killed := killed st;
         promise := Some e; logged := logged st |}
  end.

Definition logger (l : LogEntry) (st : Child) : Child :=
  {| stdoutData := stdoutData st; stderrData := stderrData st;
     timer := timer st; killed := killed st;
     promise := promise st; logged := logged st ++ [l] |}.

Definition KILL_TIMEOUT_MS : N := 2000.

(** The envelope of the ['error'] callback. *)
Definition errorEnvelope (e : JsError) : Envelope :=
  {| content :=
       [textItem (Js.lit "Failed to execute devvit logs: " ++ errorText e)];
     isError := true |}.

(** The envelope of the ['close'] callback. *)
Definition closeEnvelope (code : option Z) (out err : jsstring) : Envelope :=
  let succeeded := match code with
                   | Some 0%Z => true
                   | _ => false
                   end in
  if succeeded
  then {| content :=
            [textItem (Js.or (truncate out) (Js.lit "No log output returned."))];
          isError := false |}
  else {| content :=
            [textItem (truncate (Js.or err (Js.or out (Js.lit "Unknown error"))))];
          isError := true |}.

(** One callback run. *)
Definition step (st : Child) (ev : Event) : Child :=
  match ev with
  | StdoutData chunk =>
      {| stdoutData := stdoutData st ++ chunk; stderrData := stderrData st;
         timer := timer st; killed := killed st;
         promise := promise st; logged := logged st |}
  | StderrData chunk =>
      {| stdoutData := stdoutData st; stderrData := stderrData st ++ chunk;
         timer := timer st; killed := killed st;
         promise := promise st; logged := logged st |}
  | ErrorEvent e =>
      resolve (errorEnvelope e) (logger (ErrorSpawnFailed (errorText e)) st)
  | TimerFired =>
      match timer st with
      | None => st   (* a cleared timer never runs its callback *)
      | Some ms =>
          let st := logger (InfoTimeout ms) st in
          {| stdoutData := stdoutData st; stderrData := stderrData st;
             timer := None; killed := killed st ++ [SIGINT];
             promise := promise st; logged := logged st |}
      end
  | Close code =>
      (* clearTimeout(timeout) *)
      let st := {| stdoutData := stdoutData st; stderrData := stderrData st;
                   timer := None; killed := killed st;
                   promise := promise st; logged := logged st |} in
      let st := match code with
                | Some 0%Z => logger InfoCompleted st
                | _ => logger (WarnExited code) st
                end in
      resolve (closeEnvelope code (stdoutData st) (stderrData st)) st
  end.

Definition run (st : Child) (evs : list Event) : Child :=
  fold_left step evs st.

(** The envelope returned before anything is spawned. *)
Definition appRequired : Envelope :=
  {| content :=
       [textItem
          (Js.lit "App name is required when running outside of a Devvit workspace")];
     isError := true |}.

(** The synchronous part of the handler up to the call of [spawn]: either
    the early return, or the call that is made together with the state the
    executor leaves behind once [spawn] has returned the child. [repoRoot]
    is what [resolveRepoRoot()] returned. A [spawn] that throws instead
    of returning is accounted for in [invoke] below. *)
Inductive Started :=
| Rejected (e : Envelope)
| Running (call : SpawnCall) (st : Child).

Definition start (repoRoot : option jsstring) (p : Params) : Started :=
  if negb (Js.truthy_opt repoRoot) && negb (Js.truthy_opt (app p))
  then Rejected appRequired
  else
    let args := buildArgs p in
    Running
      {| command := Js.lit "devvit"; argv := args;
         stdio := [Ignore; Pipe; Pipe]; cwd := repoRoot |}
      {| stdoutData := []; stderrData := [];
         timer := Some KILL_TIMEOUT_MS; killed := [];
         promise := None;
         logged := [InfoExecuting
                      (Js.lit "devvit " ++ Js.join (Js.lit " ") args)] |}.

(** What one invocation leaves behind: the processes it spawned, and the
    envelope its caller received, if any yet. *)
Record Outcome := {
  spawned : list SpawnCall;
  result : option Envelope
}.

(** The handler, against the events the child's lifetime delivers, where
    [spawn] returns the child. *)
Definition handler (repoRoot : option jsstring) (p : Params)
  (evs : list Event) : Outcome :=
  match start repoRoot p with
  | Rejected e => {| spawned := []; result := Some e |}
  | Running call st =>
      {| spawned := [call]; result := promise (run st evs) |}
  end.

(** *** The handler as its caller sees it

    [spawn] is the runtime's: for a call it either returns a child or
    throws before anything is started. It is taken as a parameter, [None]
    for a child and [Some err] for what is thrown. The source has no
    [try] around the call, so what is thrown inside the executor rejects
    the promise, the [await] throws in turn and the handler's own promise
    rejects: the caller gets no envelope, no timer is set and no callback is
    registered. *)
Inductive Settlement :=
| Waiting                      (* the handler's promise is pending *)
| Returned (e : Envelope)      (* fulfilled with an envelope *)
| Raised (err : JsError).      (* rejected *)

Record Invocation := {
  children : list SpawnCall;
  outcome : Settlement
}.

Definition invoke (spawn : SpawnCall -> option JsError)
  (repoRoot : option jsstring) (p : Params) (evs : list Event) : Invocation :=
  match start repoRoot p with
  | Rejected e => {| children := []; outcome := Returned e |}
  | Running call st =>
      match spawn call with
      | Some err => {| children := []; outcome := Raised err |}
      | None =>
          {| children := [call];
             outcome := match promise (run st evs) with
                        | Some e => Returned e
                        | None => Waiting
                        end |}
      end
  end.

(** One [spawn]: Node's, which checks its arguments before it starts
    anything and throws when one of them holds a NUL code unit. *)
Definition hasNul (s : jsstring) : bool := existsb (N.eqb 0) s.

Definition nulCheck (call : SpawnCall) : option JsError :=
  if existsb hasNul (argv call)
  then Some (ErrorObject (Js.lit "ERR_INVALID_ARG_VALUE"))
  else None.

(** ** Vocabulary for traces of events *)

(** The events whose callback calls [resolve]. *)
Definition resolves (ev : Event) : bool :=
  match ev with
  | ErrorEvent _ | Close _ => true
  | StdoutData _ | StderrData _ | TimerFired => false
  end.

(** The events of the two output streams. *)
Definition isData (ev : Event) : bool :=
  match ev with
  | StdoutData _ | StderrData _ => true
  | ErrorEvent _ | TimerFired | Close _ => false
  end.

(** The envelope that the callback of a resolving event passes to [resolve]
    when it runs in state [st]. *)
Definition envelopeOf (st : Child) (ev : Event) : option Envelope :=
  match ev with
  | ErrorEvent e => Some (errorEnvelope e)
  | Close code => Some (closeEnvelope code (stdoutData st) (stderrData st))
  | StdoutData _ | StderrData _ | TimerFired => None
  end.

(** The text the child wrote to each stream over a trace, in arrival order. *)
Definition stdoutOf (evs : list Event) : jsstring :=
  flat_map (fun ev => match ev with StdoutData c => c | _ => [] end) evs.

Definition stderrOf (evs : list Event) : jsstring :=
  flat_map (fun ev => match ev with StderrData c => c | _ => [] end) evs.

(** The parameters with one optional string left out. *)
Definition withoutApp (p : Params) : Params :=
  {| subreddit := subreddit p; app := None; config := config p;
     connect := connect p; dateformat := dateformat p; json := json p;
     since := since p; verbose := verbose p |}.

Definition withoutConfig (p : Params) : Params :=
  {| subreddit := subreddit p; app := app p; config := None;
     connect := connect p; dateformat := dateformat p; json := json p;
     since := since p; verbose := verbose p |}.

Definition withoutDateformat (p : Params) : Params :=
  {| subreddit := subreddit p; app := app p; config := config p;
     connect := connect p; dateformat := None; json := json p;
     since := since p; verbose := verbose p |}.

Definition withoutSince (p : Params) : Params :=
  {| subreddit := subreddit p; app := app p; config := config p;
     connect := connect p; dateformat := dateformat p; json := json p;
     since := None; verbose := verbose p |}.

(** What the schema takes for an optional string, and for an optional
    boolean with a default. *)
Definition isOptionalString (v : Js.value) : Prop :=
  v = Js.VUndefined \/ exists s, v = Js.VString s.

Definition isOptionalBoolean (v : Js.value) : Prop :=
  v = Js.VUndefined \/ exists b, v = Js.VBoolean b.

(** The keys [inputSchema] declares. *)
Definition declaredKeys : list string :=
  ["subreddit"; "app"; "config"; "connect"; "dateformat"; "json"; "since";
   "verbose"]%string.

(** ** Sample inputs *)

Module Sample.

(** [{ subreddit: "s", app: "" }] *)
Definition emptyApp : Js.object :=
  [("subreddit"%string, Js.VString (Js.lit "s"));
   ("app"%string, Js.VString [])].

(** [{ subreddit: "r/myTestSubreddit", app: "my-app", json: true,
       since: "15m" }], the second example of the tool's description. *)
Definition described : Js.object :=
  [("subreddit"%string, Js.VString (Js.lit "r/myTestSubreddit"));
   ("app"%string, Js.VString (Js.lit "my-app"));
   ("json"%string, Js.VBoolean true);
   ("since"%string, Js.VString (Js.lit "15m"))].

(** The same object with its keys written in another order. *)
Definition describedShuffled : Js.object :=
  [("since"%string, Js.VString (Js.lit "15m"));
   ("json"%string, Js.VBoolean true);
   ("subreddit"%string, Js.VString (Js.lit "r/myTestSubreddit"));
   ("app"%string, Js.VString (Js.lit "my-app"))].

Definition describedParams : Params :=
  {| subreddit := Js.lit "r/myTestSubreddit"; app := Some (Js.lit "my-app");
     config := None; connect := false; dateformat := None; json := true;
     since := Some (Js.lit "15m"); verbose := true |}.

(** [{ subreddit: "mySubreddit" }], the first example. *)
Definition minimalParams : Params :=
  {| subreddit := Js.lit "mySubreddit"; app := None;
     config := None; connect := false; dateformat := None; json := false;
     since := None; verbose := true |}.

Definition root : option jsstring := Some (Js.lit "/work/my-app").

(** [{ subreddit: "a\u0000" }]: a string the schema accepts. *)
Definition nulParams : Params :=
  {| subreddit := Js.lit "a" ++ [0%N]; app := None;
     config := None; connect := false; dateformat := None; json := false;
     since := None; verbose := true |}.

(** 2003 code units: ['a'; 'b'; 'c'] and then 2000 times ['x']. *)
Definition longText : jsstring :=
  Js.lit "abc" ++ repeat 120%N 2000.

End Sample.

(** ** Reading the parameter object *)

Section ObjectOrder.

Variables o o' : Js.object.
Hypothesis keys_distinct : NoDup (map fst o).
Hypothesis same_properties : Permutation o o'.

Lemma get_absent (l : Js.object) (k : string) :
  ~ In k (map fst l) -> Js.get l k = Js.VUndefined.
Proof.
  induction l as [|[k' v] l IH]; simpl; intros H; [reflexivity|].
  destruct (String.eqb_spec k k') as [->|_].
  - exfalso; apply H; now left.
  - apply IH; intros Hin; apply H; now right.
Qed.

Lemma get_present (l : Js.object) (k : string) (v : Js.value) :
  NoDup (map fst l) -> In (k, v) l -> Js.get l k = v.
Proof.
  induction l as [|[k' v'] l IH]; simpl; intros Hnd Hin; [contradiction|].
  inversion Hnd as [|? ? Hk' Hnd']; subst.
  destruct Hin as [E|Hin].
  - injection E as -> ->. now rewrite String.eqb_refl.
  - destruct (String.eqb_spec k k') as [->|_]; [|now apply IH].
    exfalso; apply Hk'. change k' with (fst (k', v)). now apply in_map.
Qed.

(** A property read does not depend on the order the keys were written in. *)
Lemma get_permutation (k : string) : Js.get o k = Js.get o' k.
Proof.
  assert (Hnd' : NoDup (map fst o')).
  { eapply Permutation_NoDup; [|exact keys_distinct].
    now apply Permutation_map. }
  destruct (in_dec string_dec k (map fst o)) as [Hin|Hout].
  - apply in_map_iff in Hin as [[k' v] [E Hin]]; simpl in E; subst k'.
    rewrite (get_present o k v keys_distinct Hin).
    symmetry; apply get_present; [exact Hnd'|].
    eapply Permutation_in; eassumption.
  - rewrite (get_absent o k Hout).
    symmetry; apply get_absent. intros Hin; apply Hout.
    eapply Permutation_in; [|exact Hin].
    apply Permutation_map, Permutation_sym, same_properties.
Qed.

Lemma inputSchema_permutation : inputSchema o = inputSchema o'.
Proof. unfold inputSchema. now rewrite !get_permutation. Qed.

End ObjectOrder.

(** What the schema's output says about the object it read. *)
Lemma inputSchema_fields (raw : Js.object) (p : Params) :
  inputSchema raw = Some p ->
  Zod.default (Zod.optional Zod.boolean) false (Js.get raw "connect")
    = Some (connect p) /\
  Zod.default (Zod.optional Zod.boolean) false (Js.get raw "json")
    = Some (json p) /\
  Zod.default (Zod.optional Zod.boolean) true (Js.get raw "verbose")
    = Some (verbose p).
Proof.
  unfold inputSchema.
  destruct (Zod.string _); [|discriminate].
  destruct (Zod.optional Zod.string (Js.get raw "app")); [|discriminate].
  destruct (Zod.optional Zod.string (Js.get raw "config")); [|discriminate].
  destruct (Zod.default _ false (Js.get raw "connect")); [|discriminate].
  destruct (Zod.optional Zod.string (Js.get raw "dateformat")); [|discriminate].
  destruct (Zod.default _ false (Js.get raw "json")); [|discriminate].
  destruct (Zod.optional Zod.string (Js.get raw "since")); [|discriminate].
  destruct (Zod.default _ true (Js.get raw "verbose")); [|discriminate].
  intros E; injection E as <-; simpl; auto.
Qed.

Lemma default_boolean (d b : bool) (v : Js.value) :
  Zod.default (Zod.optional Zod.boolean) d v = Some b ->
  (v = Js.VUndefined /\ b = d) \/ v = Js.VBoolean b.
Proof.
  destruct v; simpl; intros E; try discriminate; injection E as <-; auto.
Qed.

(** ** The argument vector *)

Lemma pushIf_segment (c : bool) (xs args : list jsstring) :
  pushIf c xs args = args ++ (if c then xs else []).
Proof. destruct c; simpl; [reflexivity|now rewrite app_nil_r]. Qed.

Lemma pushStr_segment (o : option jsstring) (f : jsstring -> list jsstring)
  (args : list jsstring) :
  exists seg, pushStr o f args = args ++ seg /\
    ((exists x, o = Some x /\ x <> [] /\ seg = f x) \/
     (Js.truthy_opt o = false /\ seg = [])).
Proof.
  destruct o as [[|u s]|]; simpl.
  - exists []; rewrite app_nil_r; auto.
  - exists (f (u :: s)); split; [reflexivity|left].
    exists (u :: s); repeat split; congruence.
  - exists []; rewrite app_nil_r; auto.
Qed.

(** The array is the two leading tokens followed by one segment per push, in
    the order of the pushes. *)
Lemma buildArgs_segments (p : Params) :
  exists a c d s,
    buildArgs p =
      [Js.lit "logs"; subreddit p] ++ a ++ c
        ++ (if connect p then [Js.lit "--connect"] else []) ++ d
        ++ (if json p then [Js.lit "--json"] else []) ++ s
        ++ (if verbose p then [Js.lit "--verbose"] else []) /\
    ((exists x, app p = Some x /\ x <> [] /\ a = [x]) \/
     (Js.truthy_opt (app p) = false /\ a = [])) /\
    ((exists x, config p = Some x /\ x <> [] /\ c = [Js.lit "--config"; x]) \/
     (Js.truthy_opt (config p) = false /\ c = [])) /\
    ((exists x, dateformat p = Some x /\ x <> []
                /\ d = [Js.lit "--dateformat"; x]) \/
     (Js.truthy_opt (dateformat p) = false /\ d = [])) /\
    ((exists x, since p = Some x /\ x <> [] /\ s = [Js.lit "--since"; x]) \/
     (Js.truthy_opt (since p) = false /\ s = [])).
Proof.
  unfold buildArgs. rewrite !pushIf_segment.
  match goal with |- context [pushStr (app p) ?f ?x] =>
    destruct (pushStr_segment (app p) f x) as (a & -> & Ha) end.
  match goal with |- context [pushStr (config p) ?f ?x] =>
    destruct (pushStr_segment (config p) f x) as (c & -> & Hc) end.
  match goal with |- context [pushStr (dateformat p) ?f ?x] =>
    destruct (pushStr_segment (dateformat p) f x) as (d & -> & Hd) end.
  match goal with |- context [pushStr (since p) ?f ?x] =>
    destruct (pushStr_segment (since p) f x) as (s & -> & Hs) end.
  exists a, c, d, s. repeat split; try assumption.
  now rewrite <- !app_assoc.
Qed.

Lemma start_running (root : option jsstring) (p : Params) :
  Js.truthy_opt root = true \/ Js.truthy_opt (app p) = true ->
  exists st,
    start root p =
      Running {| command := Js.lit "devvit"; argv := buildArgs p;
                 stdio := [Ignore; Pipe; Pipe]; cwd := root |} st /\
    stdoutData st = [] /\ stderrData st = [] /\
    timer st = Some KILL_TIMEOUT_MS /\ killed st = [] /\ promise st = None.
Proof.
  intros H. unfold start.
  replace (negb (Js.truthy_opt root) && negb (Js.truthy_opt (app p)))
    with false by (destruct H as [-> | ->]; simpl; now rewrite ?andb_false_r).
  eexists; split; [reflexivity|]; simpl; auto.
Qed.

Lemma start_running_inv (root : option jsstring) (p : Params)
  (call : SpawnCall) (st : Child) :
  start root p = Running call st ->
  (Js.truthy_opt root = true \/ Js.truthy_opt (app p) = true) /\
  argv call = buildArgs p /\
  stdoutData st = [] /\ stderrData st = [] /\
  timer st = Some KILL_TIMEOUT_MS /\ killed st = [] /\ promise st = None.
Proof.
  unfold start.
  destruct (Js.truthy_opt root) eqn:Er, (Js.truthy_opt (app p)) eqn:Ea; simpl;
    intros E; try discriminate; injection E as <- <-; simpl; auto 10.
Qed.

(** ** The promise and the callbacks *)

Lemma run_app (st : Child) (xs ys : list Event) :
  run st (xs ++ ys) = run (run st xs) ys.
Proof. apply fold_left_app. Qed.

Lemma promise_resolve (e : Envelope) (st : Child) :
  promise (resolve e st) =
    match promise st with
    | Some first => Some first
    | None => Some e
    end.
Proof. unfold resolve. destruct (promise st) eqn:E; simpl; auto. Qed.

Lemma resolve_keeps (e : Envelope) (st : Child) :
  stdoutData (resolve e st) = stdoutData st /\
  stderrData (resolve e st) = stderrData st /\
  timer (resolve e st) = timer st /\
  killed (resolve e st) = killed st.
Proof. unfold resolve. destruct (promise st); simpl; auto. Qed.

Lemma run_snoc (st : Child) (xs : list Event) (ev : Event) :
  run st (xs ++ [ev]) = step (run st xs) ev.
Proof. now rewrite run_app. Qed.

Lemma run_cons (st : Child) (ev : Event) (evs : list Event) :
  run st (ev :: evs) = run (step st ev) evs.
Proof. reflexivity. Qed.

(** A settled promise keeps its value through every callback. *)
Lemma settled_step (st : Child) (ev : Event) (e : Envelope) :
  promise st = Some e -> promise (step st ev) = Some e.
Proof.
  intros H. destruct ev as [c|c|err| |code]; simpl; try assumption.
  - rewrite promise_resolve. simpl. now rewrite H.
  - destruct (timer st); simpl; assumption.
  - rewrite promise_resolve.
    destruct code as [[| |]|]; simpl; now rewrite H.
Qed.

Lemma settled_run (evs : list Event) (st : Child) (e : Envelope) :
  promise st = Some e -> promise (run st evs) = Some e.
Proof.
  revert st. induction evs as [|ev evs IH]; intros st H; simpl; [assumption|].
  apply IH. now apply settled_step.
Qed.

(** Data and the timer leave the promise as it is. *)
Lemma quiet_step (st : Child) (ev : Event) :
  resolves ev = false -> promise (step st ev) = promise st.
Proof.
  destruct ev; simpl; intros H; try discriminate; try reflexivity.
  destruct (timer st); reflexivity.
Qed.

Lemma quiet_run (evs : list Event) (st : Child) :
  Forall (fun ev => resolves ev = false) evs ->
  promise (run st evs) = promise st.
Proof.
  revert st. induction evs as [|ev evs IH]; intros st H; simpl; [reflexivity|].
  inversion H; subst. rewrite IH by assumption. now apply quiet_step.
Qed.

(** A resolving callback settles a pending promise with its envelope. *)
Lemma resolving_step (st : Child) (ev : Event) :
  promise st = None -> resolves ev = true ->
  promise (step st ev) = envelopeOf st ev.
Proof.
  intros Hp. destruct ev as [c|c|err| |code]; simpl; intros H; try discriminate.
  - rewrite promise_resolve. simpl. now rewrite Hp.
  - rewrite promise_resolve.
    destruct code as [[| |]|]; simpl; now rewrite Hp.
Qed.

(** Each buffer holds the chunks of its stream, in arrival order; no other
    callback writes to it. *)
Lemma buffers_step (st : Child) (ev : Event) :
  stdoutData (step st ev) = stdoutData st ++ stdoutOf [ev] /\
  stderrData (step st ev) = stderrData st ++ stderrOf [ev].
Proof.
  destruct ev as [c|c|err| |code]; simpl; rewrite ?app_nil_r; auto.
  - destruct (resolve_keeps (errorEnvelope err)
                (logger (ErrorSpawnFailed (errorText err)) st))
      as (-> & -> & _). auto.
  - destruct (timer st); simpl; auto.
  - match goal with |- context [resolve ?e ?s] =>
      destruct (resolve_keeps e s) as (-> & -> & _) end.
    destruct code as [[| |]|]; simpl; auto.
Qed.

Lemma buffers_run (evs : list Event) (st : Child) :
  stdoutData (run st evs) = stdoutData st ++ stdoutOf evs /\
  stderrData (run st evs) = stderrData st ++ stderrOf evs.
Proof.
  revert st. induction evs as [|ev evs IH]; intros st; simpl.
  - now rewrite !app_nil_r.
  - destruct (IH (step st ev)) as [-> ->].
    destruct (buffers_step st ev) as [-> ->]. simpl.
    now rewrite !app_nil_r, <- !app_assoc.
Qed.

Lemma quiet_of_data (evs : list Event) :
  Forall (fun ev => isData ev = true) evs ->
  Forall (fun ev => resolves ev = false) evs.
Proof.
  apply Forall_impl. intros [| | | |]; simpl; congruence.
Qed.

(** Data events touch neither the timer nor the signals sent. *)
Lemma data_run (evs : list Event) (st : Child) :
  Forall (fun ev => isData ev = true) evs ->
  timer (run st evs) = timer st /\ killed (run st evs) = killed st.
Proof.
  revert st. induction evs as [|ev evs IH]; intros st H; simpl; [auto|].
  inversion H as [|? ? Hev Hevs]; subst.
  destruct (IH (step st ev) Hevs) as [-> ->].
  destruct ev; simpl in *; try discriminate; auto.
Qed.

(** ** Properties of the argument vector *)

(** C1, as stated, fails: an [app] that is present but empty passes the
    schema and, inside a workspace, the process is spawned, yet the third
    element of the argument vector is not [app]. *)
Lemma app_present_not_third :
  ~ (forall (raw : Js.object) (root : option jsstring) (p : Params)
            (call : SpawnCall) (st : Child) (a : jsstring),
       inputSchema raw = Some p ->
       root <> None \/ app p <> None ->
       start root p = Running call st ->
       app p = Some a ->
       nth_error (argv call) 2 = Some a).
Proof.
  intros H.
  assert (Hroot : Sample.root <> None \/ Some (@nil Js.code_unit) <> None)
    by (left; discriminate).
  pose proof (H Sample.emptyApp Sample.root _ _ _ [] eq_refl Hroot
                eq_refl eq_refl) as E.
  vm_compute in E. discriminate E.
Qed.

(** C1 (amended): for every parameter object that passes the schema, with a
    resolvable workspace root or a non-empty [app], the process is spawned
    with an argument vector that begins with ["logs"] and the subreddit; a
    non-empty [app] is its third element and an empty or absent one adds
    nothing; the flags follow as segments in the order --config, --connect,
    --dateformat, --json, --since, --verbose; and writing the keys of the
    object in another order gives the same parameters, hence the same
    vector. *)
Theorem args_layout (raw raw' : Js.object) (root : option jsstring)
  (p : Params) :
  NoDup (map fst raw) -> Permutation raw raw' ->
  inputSchema raw = Some p ->
  Js.truthy_opt root = true \/ Js.truthy_opt (app p) = true ->
  exists call st a c n d j s v,
    inputSchema raw' = Some p /\
    start root p = Running call st /\
    argv call = [Js.lit "logs"; subreddit p] ++ a ++ c ++ n ++ d ++ j ++ s ++ v /\
    ((exists x, app p = Some x /\ x <> [] /\ a = [x]
                /\ nth_error (argv call) 2 = Some x) \/
     (Js.truthy_opt (app p) = false /\ a = [])) /\
    (c = [] \/ exists x, c = [Js.lit "--config"; x]) /\
    (n = [] \/ n = [Js.lit "--connect"]) /\
    (d = [] \/ exists x, d = [Js.lit "--dateformat"; x]) /\
    (j = [] \/ j = [Js.lit "--json"]) /\
    (s = [] \/ exists x, s = [Js.lit "--since"; x]) /\
    (v = [] \/ v = [Js.lit "--verbose"]).
Proof.
  intros Hnd Hperm Hp Hrun.
  destruct (start_running root p Hrun) as (st & Hst & _).
  destruct (buildArgs_segments p) as (a & c & d & s & E & Ha & Hc & Hd & Hs).
  eexists _, st, a, c, _, d, _, s, _.
  split; [now rewrite <- (inputSchema_permutation raw raw' Hnd Hperm)|].
  split; [exact Hst|]. simpl argv.
  split; [exact E|].
  split.
  { destruct Ha as [(x & Hx & Hne & ->)|[Hf ->]]; [left|right; auto].
    exists x; repeat split; try assumption. now rewrite E. }
  split; [destruct Hc as [(x & _ & _ & ->)|[_ ->]]; eauto|].
  split; [destruct (connect p); auto|].
  split; [destruct Hd as [(x & _ & _ & ->)|[_ ->]]; eauto|].
  split; [destruct (json p); auto|].
  split; [destruct Hs as [(x & _ & _ & ->)|[_ ->]]; eauto|].
  destruct (verbose p); auto.
Qed.

Lemma args_layout_witness :
  NoDup (map fst Sample.described) /\
  Permutation Sample.described Sample.describedShuffled /\
  inputSchema Sample.described = Some Sample.describedParams /\
  exists call st a c n d j s v,
    inputSchema Sample.describedShuffled = Some Sample.describedParams /\
    start Sample.root Sample.describedParams = Running call st /\
    argv call = [Js.lit "logs"; subreddit Sample.describedParams]
                  ++ a ++ c ++ n ++ d ++ j ++ s ++ v /\
    ((exists x, app Sample.describedParams = Some x /\ x <> [] /\ a = [x]
                /\ nth_error (argv call) 2 = Some x) \/
     (Js.truthy_opt (app Sample.describedParams) = false /\ a = [])) /\
    (c = [] \/ exists x, c = [Js.lit "--config"; x]) /\
    (n = [] \/ n = [Js.lit "--connect"]) /\
    (d = [] \/ exists x, d = [Js.lit "--dateformat"; x]) /\
    (j = [] \/ j = [Js.lit "--json"]) /\
    (s = [] \/ exists x, s = [Js.lit "--since"; x]) /\
    (v = [] \/ v = [Js.lit "--verbose"]).
Proof.
  assert (Hnd : NoDup (map fst Sample.described)).
  { simpl. repeat constructor; simpl; intuition discriminate. }
  assert (Hperm : Permutation Sample.described Sample.describedShuffled).
  { unfold Sample.described, Sample.describedShuffled.
    eapply perm_trans;
      [exact (Permutation_app_comm
                [("subreddit"%string, Js.VString (Js.lit "r/myTestSubreddit"));
                 ("app"%string, Js.VString (Js.lit "my-app"))]
                [("json"%string, Js.VBoolean true);
                 ("since"%string, Js.VString (Js.lit "15m"))])|].
    apply perm_swap. }
  split; [exact Hnd|]. split; [exact Hperm|]. split; [reflexivity|].
  apply (args_layout Sample.described Sample.describedShuffled Sample.root
           Sample.describedParams Hnd Hperm eq_refl).
  left; reflexivity.
Defined.

(** C2: in every argument vector the handler builds, --connect and --json
    stand alone and are there exactly when the object gave [true] for them;
    --verbose stands alone and is there unless the object gave [false] for
    it (so also when it was left out); --config, --dateformat and --since
    are each there exactly when their string is present and non-empty, and
    then followed by that one string. No other token follows the
    positional arguments. *)
Theorem flag_tokens (raw : Js.object) (root : option jsstring) (p : Params)
  (call : SpawnCall) (st : Child) :
  inputSchema raw = Some p ->
  start root p = Running call st ->
  exists a c n d j s v,
    argv call = ([Js.lit "logs"; subreddit p] ++ a)
                  ++ c ++ n ++ d ++ j ++ s ++ v /\
    (a = [] \/ exists x, a = [x]) /\
    ((exists x, config p = Some x /\ x <> [] /\ c = [Js.lit "--config"; x]) \/
     (Js.truthy_opt (config p) = false /\ c = [])) /\
    ((Js.get raw "connect" = Js.VBoolean true /\ n = [Js.lit "--connect"]) \/
     (Js.get raw "connect" <> Js.VBoolean true /\ n = [])) /\
    ((exists x, dateformat p = Some x /\ x <> []
                /\ d = [Js.lit "--dateformat"; x]) \/
     (Js.truthy_opt (dateformat p) = false /\ d = [])) /\
    ((Js.get raw "json" = Js.VBoolean true /\ j = [Js.lit "--json"]) \/
     (Js.get raw "json" <> Js.VBoolean true /\ j = [])) /\
    ((exists x, since p = Some x /\ x <> [] /\ s = [Js.lit "--since"; x]) \/
     (Js.truthy_opt (since p) = false /\ s = [])) /\
    ((Js.get raw "verbose" = Js.VBoolean false /\ v = []) \/
     (Js.get raw "verbose" <> Js.VBoolean false /\ v = [Js.lit "--verbose"])).
Proof.
  intros Hp Hst.
  destruct (start_running_inv root p call st Hst) as (_ & -> & _).
  destruct (inputSchema_fields raw p Hp) as (Hn & Hj & Hv).
  apply default_boolean in Hn, Hj, Hv.
  destruct (buildArgs_segments p) as (a & c & d & s & E & Ha & Hc & Hd & Hs).
  eexists a, c, _, d, _, s, _.
  split; [rewrite <- app_assoc; exact E|].
  split; [destruct Ha as [(x & _ & _ & ->)|[_ ->]]; eauto|].
  split; [exact Hc|].
  split.
  { destruct Hn as [[-> ->]| ->]; [right; split; [discriminate|reflexivity]|].
    destruct (connect p); [left|right]; split; try reflexivity; discriminate. }
  split; [exact Hd|].
  split.
  { destruct Hj as [[-> ->]| ->]; [right; split; [discriminate|reflexivity]|].
    destruct (json p); [left|right]; split; try reflexivity; discriminate. }
  split; [exact Hs|].
  destruct Hv as [[-> ->]| ->]; [right; split; [discriminate|reflexivity]|].
  destruct (verbose p); [right|left]; split; try reflexivity; discriminate.
Qed.

Lemma flag_tokens_witness :
  inputSchema Sample.described = Some Sample.describedParams /\
  exists call st,
    start Sample.root Sample.describedParams = Running call st /\
    exists a c n d j s v,
      argv call = ([Js.lit "logs"; Js.lit "r/myTestSubreddit"] ++ a)
                    ++ c ++ n ++ d ++ j ++ s ++ v /\
      (a = [] \/ exists x, a = [x]) /\
      ((exists x, None = Some x /\ x <> [] /\ c = [Js.lit "--config"; x]) \/
       (false = false /\ c = [])) /\
      ((Js.VUndefined = Js.VBoolean true /\ n = [Js.lit "--connect"]) \/
       (Js.VUndefined <> Js.VBoolean true /\ n = [])) /\
      ((exists x, None = Some x /\ x <> []
                  /\ d = [Js.lit "--dateformat"; x]) \/
       (false = false /\ d = [])) /\
      ((Js.VBoolean true = Js.VBoolean true /\ j = [Js.lit "--json"]) \/
       (Js.VBoolean true <> Js.VBoolean true /\ j = [])) /\
      ((exists x, Some (Js.lit "15m") = Some x /\ x <> []
                  /\ s = [Js.lit "--since"; x]) \/
       (true = false /\ s = [])) /\
      ((Js.VUndefined = Js.VBoolean false /\ v = []) \/
       (Js.VUndefined <> Js.VBoolean false /\ v = [Js.lit "--verbose"])).
Proof.
  split; [reflexivity|].
  eexists; eexists; split; [reflexivity|].
  exact (flag_tokens Sample.described Sample.root Sample.describedParams
           _ _ eq_refl eq_refl).
Defined.

(** ** The early return *)

(** C3: when no workspace root is resolved and no [app] was given, the
    handler returns the error envelope whose one text item says that an app
    name is required outside a workspace, and spawns nothing, whatever
    events one imagines afterwards. *)
Theorem app_required (root : option jsstring) (p : Params)
  (evs : list Event) :
  Js.truthy_opt root = false -> app p = None ->
  handler root p evs =
    {| spawned := [];
       result :=
         Some {| content :=
                   [{| type := Js.lit "text";
                       text := Js.lit "App name is required when running outside of a Devvit workspace" |}];
                 isError := true |} |}.
Proof.
  intros Hroot Happ. unfold handler, start.
  rewrite Hroot, Happ. reflexivity.
Qed.

Lemma app_required_witness :
  Js.truthy_opt None = false /\ app Sample.minimalParams = None /\
  handler None Sample.minimalParams [Close (Some 0%Z)] =
    {| spawned := [];
       result :=
         Some {| content :=
                   [{| type := Js.lit "text";
                       text := Js.lit "App name is required when running outside of a Devvit workspace" |}];
                 isError := true |} |}.
Proof.
  split; [reflexivity|]. split; [reflexivity|].
  exact (app_required None Sample.minimalParams [Close (Some 0%Z)]
           eq_refl eq_refl).
Defined.

(** ** Truncation *)

Lemma slice_tail (s : jsstring) :
  (2000 < List.length s)%nat ->
  Js.slice s (- MAX_LENGTH) = skipn (List.length s - 2000) s.
Proof.
  intros H. unfold Js.slice, Js.length.
  assert (E : (- MAX_LENGTH <? 0)%Z = true) by reflexivity.
  rewrite E. unfold MAX_LENGTH. f_equal. lia.
Qed.

(** C4: [truncate] returns a string of at most 2000 code units unchanged,
    and of a longer one exactly the ellipsis followed by its last 2000 code
    units. *)
Theorem truncate_spec (str : jsstring) :
  ((List.length str <= 2000)%nat -> truncate str = str) /\
  ((2000 < List.length str)%nat ->
   exists front back,
     str = front ++ back /\ List.length back = 2000%nat /\
     truncate str = [ellipsis] ++ back).
Proof.
  unfold truncate. split; intros H.
  - replace (Js.length str >? MAX_LENGTH)%Z with false; [reflexivity|].
    symmetry. unfold Js.length, MAX_LENGTH.
    rewrite Z.gtb_ltb. apply Z.ltb_ge. lia.
  - replace (Js.length str >? MAX_LENGTH)%Z with true.
    + exists (firstn (List.length str - 2000) str), (skipn (List.length str - 2000) str).
      split; [symmetry; apply firstn_skipn|].
      split; [rewrite length_skipn; lia|].
      now rewrite slice_tail.
    + symmetry. unfold Js.length, MAX_LENGTH.
      rewrite Z.gtb_ltb. apply Z.ltb_lt. lia.
Qed.

Lemma truncate_spec_witness :
  truncate (Js.lit "hello") = Js.lit "hello" /\
  exists front back,
    Sample.longText = front ++ back /\ List.length back = 2000%nat /\
    truncate Sample.longText = [ellipsis] ++ back.
Proof.
  split.
  - apply (proj1 (truncate_spec (Js.lit "hello"))). simpl. lia.
  - apply (proj2 (truncate_spec Sample.longText)).
    unfold Sample.longText. rewrite length_app, repeat_length. simpl. lia.
Defined.

(** ** Resolution of the promise *)

(** The first resolving event of a trace decides the promise for good. *)
Lemma first_resolution (st : Child) (pre post : list Event) (ev : Event)
  (e : Envelope) :
  promise st = None ->
  Forall (fun x => resolves x = false) pre ->
  envelopeOf (run st pre) ev = Some e ->
  promise (run st (pre ++ ev :: post)) = Some e.
Proof.
  intros Hp Hpre He. rewrite run_app. simpl. apply settled_run.
  assert (Hr : resolves ev = true) by (destruct ev; simpl in *; congruence).
  rewrite resolving_step; [exact He| |exact Hr].
  now rewrite quiet_run.
Qed.

Lemma buffers_from_start (root : option jsstring) (p : Params)
  (call : SpawnCall) (st : Child) (evs : list Event) :
  start root p = Running call st ->
  stdoutData (run st evs) = stdoutOf evs /\
  stderrData (run st evs) = stderrOf evs.
Proof.
  intros Hst.
  destruct (start_running_inv root p call st Hst) as (_ & _ & Ho & He & _).
  destruct (buffers_run evs st) as [-> ->]. now rewrite Ho, He.
Qed.

(** ** The timer *)

(** C7: every spawn leaves a timer of 2000 ms pending. When it fires while
    the child still runs, [SIGINT] is sent and the promise stays pending;
    the envelope comes from the close event that follows, whose callback
    also clears the timer. When the child closes first, the timer is
    cleared and never sends the signal. In no state does the timer's
    callback touch the promise. *)
Theorem timeout_interrupts (root : option jsstring) (p : Params)
  (call : SpawnCall) (st : Child) (pre mid : list Event) (code : option Z) :
  start root p = Running call st ->
  Forall (fun ev => isData ev = true) pre ->
  Forall (fun ev => isData ev = true) mid ->
  timer st = Some 2000%N /\
  (let fired := run st (pre ++ [TimerFired]) in
   killed fired = [SIGINT] /\ promise fired = None /\
   let closed := run fired (mid ++ [Close code]) in
   promise closed =
     Some (closeEnvelope code (stdoutOf (pre ++ mid)) (stderrOf (pre ++ mid)))
   /\ timer closed = None /\ killed closed = [SIGINT]) /\
  (let closed := run st (pre ++ [Close code]) in
   timer closed = None /\ killed closed = [] /\
   step closed TimerFired = closed) /\
  (forall s : Child, promise (step s TimerFired) = promise s) /\
  (forall (s : Child) (c : option Z), timer (step s (Close c)) = None).
Proof.
  intros Hst Hpre Hmid.
  destruct (start_running_inv root p call st Hst)
    as (_ & _ & _ & _ & Ht & Hk & Hp).
  split; [exact Ht|].
  destruct (data_run pre st Hpre) as [Htp Hkp].
  assert (Hpp : promise (run st pre) = None)
    by (rewrite quiet_run; [exact Hp|now apply quiet_of_data]).
  split; [|split; [|split]].
  - cbv zeta. rewrite run_snoc.
    assert (Ef : step (run st pre) TimerFired =
                 {| stdoutData := stdoutData (run st pre);
                    stderrData := stderrData (run st pre);
                    timer := None; killed := [SIGINT]; promise := None;
                    logged := logged (run st pre) ++ [InfoTimeout 2000%N] |}).
    { simpl. rewrite Htp, Ht, Hkp, Hk, Hpp. reflexivity. }
    rewrite Ef. simpl killed. simpl promise.
    split; [reflexivity|]. split; [reflexivity|].
    rewrite <- Ef. clear Ef.
    set (fired := step (run st pre) TimerFired).
    assert (Hfp : promise fired = None)
      by (unfold fired; rewrite quiet_step; [exact Hpp|reflexivity]).
    assert (Hfk : killed fired = [SIGINT])
      by (unfold fired; simpl; rewrite Htp, Ht; simpl; now rewrite Hkp, Hk).
    assert (Hfb : stdoutData fired = stdoutOf pre
                  /\ stderrData fired = stderrOf pre).
    { unfold fired. destruct (buffers_step (run st pre) TimerFired) as [-> ->].
      destruct (buffers_from_start root p call st pre Hst) as [-> ->].
      simpl. now rewrite !app_nil_r. }
    destruct Hfb as [Hfo Hfe].
    rewrite run_snoc.
    destruct (data_run mid fired Hmid) as [_ Hkm].
    destruct (buffers_run mid fired) as [Hmo Hme].
    assert (Hmp : promise (run fired mid) = None)
      by (rewrite quiet_run; [exact Hfp|now apply quiet_of_data]).
    split; [|split].
    + rewrite resolving_step; [|exact Hmp|reflexivity]. simpl.
      rewrite Hmo, Hme, Hfo, Hfe.
      unfold stdoutOf, stderrOf. now rewrite !flat_map_app.
    + simpl. match goal with |- context [resolve ?e ?s] =>
        destruct (resolve_keeps e s) as (_ & _ & -> & _) end.
      destruct code as [[| |]|]; reflexivity.
    + simpl. match goal with |- context [resolve ?e ?s] =>
        destruct (resolve_keeps e s) as (_ & _ & _ & ->) end.
      destruct code as [[| |]|]; simpl; now rewrite Hkm, Hfk.
  - cbv zeta. rewrite run_snoc.
    assert (Etimer : timer (step (run st pre) (Close code)) = None).
    { simpl. match goal with |- context [resolve ?e ?s] =>
        destruct (resolve_keeps e s) as (_ & _ & -> & _) end.
      destruct code as [[| |]|]; reflexivity. }
    split; [exact Etimer|]. split.
    + simpl. match goal with |- context [resolve ?e ?s] =>
        destruct (resolve_keeps e s) as (_ & _ & _ & ->) end.
      destruct code as [[| |]|]; simpl; now rewrite Hkp, Hk.
    + unfold step at 1. now rewrite Etimer.
  - intros s. apply quiet_step. reflexivity.
  - intros s c. simpl. match goal with |- context [resolve ?e ?s] =>
      destruct (resolve_keeps e s) as (_ & _ & -> & _) end.
    destruct c as [[| |]|]; reflexivity.
Qed.

Lemma timeout_interrupts_witness :
  exists call st,
    start Sample.root Sample.minimalParams = Running call st /\
    timer st = Some 2000%N /\
    (let fired := run st ([StdoutData (Js.lit "a")] ++ [TimerFired]) in
     killed fired = [SIGINT] /\ promise fired = None /\
     let closed := run fired ([StderrData (Js.lit "b")] ++ [Close None]) in
     promise closed =
       Some (closeEnvelope None
               (stdoutOf ([StdoutData (Js.lit "a")] ++ [StderrData (Js.lit "b")]))
               (stderrOf ([StdoutData (Js.lit "a")] ++ [StderrData (Js.lit "b")])))
     /\ timer closed = None /\ killed closed = [SIGINT]) /\
    (let closed := run st ([StdoutData (Js.lit "a")] ++ [Close None]) in
     timer closed = None /\ killed closed = [] /\
     step closed TimerFired = closed) /\
    (forall s : Child, promise (step s TimerFired) = promise s) /\
    (forall (s : Child) (c : option Z), timer (step s (Close c)) = None).
Proof.
  eexists; eexists; split; [reflexivity|].
  apply (timeout_interrupts Sample.root Sample.minimalParams _ _
           [StdoutData (Js.lit "a")] [StderrData (Js.lit "b")] None eq_refl);
    repeat constructor.
Defined.

(** ** Empty strings *)

(** C10: an optional string that is the empty string has the effect of one
    that is absent. With an empty [app] the handler does what it does
    without [app]: it adds no positional argument, and rejects the call
    when no workspace root is resolved; with an empty [config],
    [dateformat] or [since] it does what it does without that parameter,
    so the flag is not emitted. *)
Theorem empty_string_as_absent (root : option jsstring) (p : Params)
  (evs : list Event) :
  (app p = Some [] ->
   handler root p evs = handler root (withoutApp p) evs /\
   buildArgs p = buildArgs (withoutApp p) /\
   (Js.truthy_opt root = false ->
    handler root p evs = {| spawned := []; result := Some appRequired |})) /\
  (config p = Some [] ->
   handler root p evs = handler root (withoutConfig p) evs /\
   buildArgs p = buildArgs (withoutConfig p)) /\
  (dateformat p = Some [] ->
   handler root p evs = handler root (withoutDateformat p) evs /\
   buildArgs p = buildArgs (withoutDateformat p)) /\
  (since p = Some [] ->
   handler root p evs = handler root (withoutSince p) evs /\
   buildArgs p = buildArgs (withoutSince p)).
Proof.
  destruct p as [sub a c n d j s v]. simpl.
  split; [|split; [|split]]; intros ->; repeat split; try reflexivity.
  intros Hroot. unfold handler, start. simpl. now rewrite Hroot.
Qed.

Lemma empty_string_as_absent_witness :
  handler None
    {| subreddit := Js.lit "s"; app := Some []; config := Some [];
       connect := false; dateformat := Some []; json := false;
       since := Some []; verbose := false |} [] =
    {| spawned := []; result := Some appRequired |} /\
  buildArgs
    {| subreddit := Js.lit "s"; app := Some []; config := Some [];
       connect := false; dateformat := Some []; json := false;
       since := Some []; verbose := false |} = [Js.lit "logs"; Js.lit "s"].
Proof.
  pose proof (empty_string_as_absent None
                {| subreddit := Js.lit "s"; app := Some []; config := Some [];
                   connect := false; dateformat := Some []; json := false;
                   since := Some []; verbose := false |} []) as H.
  destruct H as (Ha & _).
  destruct (Ha eq_refl) as (_ & _ & Hr).
  split; [exact (Hr eq_refl)|reflexivity].
Defined.

(** ** Further properties: the schema *)

Lemma string_accepts (v : Js.value) :
  Zod.string v <> None <-> exists s, v = Js.VString s.
Proof.
  destruct v; simpl; split; try congruence; eauto;
    intros [x E]; discriminate E.
Qed.

Lemma optional_string_accepts (v : Js.value) :
  Zod.optional Zod.string v <> None <-> isOptionalString v.
Proof.
  unfold isOptionalString.
  destruct v; simpl; split; try congruence; eauto;
    intros [E|[x E]]; discriminate E.
Qed.

Lemma default_boolean_accepts (d : bool) (v : Js.value) :
  Zod.default (Zod.optional Zod.boolean) d v <> None <-> isOptionalBoolean v.
Proof.
  unfold isOptionalBoolean.
  destruct v; simpl; split; try congruence; eauto;
    intros [E|[x E]]; discriminate E.
Qed.

(** X1: the schema accepts an object exactly when [subreddit] is a string,
    each of [app], [config], [dateformat], [since] is a string or
    undefined, and each of [connect], [json], [verbose] is a boolean or
    undefined; no other value (null, a number) passes. *)
Theorem inputSchema_accepts (raw : Js.object) :
  inputSchema raw <> None <->
  (exists s, Js.get raw "subreddit" = Js.VString s) /\
  isOptionalString (Js.get raw "app") /\
  isOptionalString (Js.get raw "config") /\
  isOptionalBoolean (Js.get raw "connect") /\
  isOptionalString (Js.get raw "dateformat") /\
  isOptionalBoolean (Js.get raw "json") /\
  isOptionalString (Js.get raw "since") /\
  isOptionalBoolean (Js.get raw "verbose").
Proof.
  rewrite <- string_accepts, <- !optional_string_accepts.
  rewrite <- (default_boolean_accepts false (Js.get raw "connect")).
  rewrite <- (default_boolean_accepts false (Js.get raw "json")).
  rewrite <- (default_boolean_accepts true (Js.get raw "verbose")).
  unfold inputSchema.
  destruct (Zod.string _); [|intuition congruence].
  destruct (Zod.optional Zod.string (Js.get raw "app")); [|intuition congruence].
  destruct (Zod.optional Zod.string (Js.get raw "config"));
    [|intuition congruence].
  destruct (Zod.default _ false (Js.get raw "connect")); [|intuition congruence].
  destruct (Zod.optional Zod.string (Js.get raw "dateformat"));
    [|intuition congruence].
  destruct (Zod.default _ false (Js.get raw "json")); [|intuition congruence].
  destruct (Zod.optional Zod.string (Js.get raw "since"));
    [|intuition congruence].
  destruct (Zod.default _ true (Js.get raw "verbose")); intuition congruence.
Qed.

(** X2: a property whose key the schema does not declare is ignored: the
    object with it and the object without it parse alike. *)
Theorem inputSchema_ignores_unknown (raw : Js.object) (k : string)
  (v : Js.value) :
  ~ In k declaredKeys ->
  inputSchema ((k, v) :: raw) = inputSchema raw.
Proof.
  intros Hk.
  assert (E : forall k', In k' declaredKeys ->
                         Js.get ((k, v) :: raw) k' = Js.get raw k').
  { intros k' Hin. simpl. destruct (String.eqb_spec k' k) as [->|_];
      [contradiction|reflexivity]. }
  unfold inputSchema.
  rewrite !E by (unfold declaredKeys; simpl; tauto).
  reflexivity.
Qed.

Lemma inputSchema_ignores_unknown_witness :
  inputSchema (("timeout"%string, Js.VOther) :: Sample.described)
    = Some Sample.describedParams.
Proof.
  rewrite (inputSchema_ignores_unknown Sample.described "timeout" Js.VOther).
  - reflexivity.
  - unfold declaredKeys. simpl. intuition discriminate.
Defined.

(** X3: when only [subreddit] is given, the schema fills in the defaults
    and, where the process is spawned, the command is
    [devvit logs <subreddit> --verbose]. *)
Theorem minimal_call (raw : Js.object) (root : option jsstring)
  (s : jsstring) :
  Js.get raw "subreddit" = Js.VString s ->
  (forall k, In k declaredKeys -> k <> "subreddit"%string ->
             Js.get raw k = Js.VUndefined) ->
  exists p,
    inputSchema raw = Some p /\
    forall call st,
      start root p = Running call st ->
      command call = Js.lit "devvit" /\
      argv call = [Js.lit "logs"; s; Js.lit "--verbose"].
Proof.
  intros Hs Hrest.
  exists {| subreddit := s; app := None; config := None; connect := false;
            dateformat := None; json := false; since := None;
            verbose := true |}.
  split.
  - unfold inputSchema. rewrite Hs.
    rewrite !Hrest by (unfold declaredKeys; simpl; intuition discriminate).
    reflexivity.
  - intros call st Hst. unfold start in Hst.
    destruct (negb (Js.truthy_opt root) && _); [discriminate Hst|].
    injection Hst as <- _. split; reflexivity.
Qed.

Lemma minimal_call_witness :
  exists p,
    inputSchema [("subreddit"%string, Js.VString (Js.lit "mySubreddit"))]
      = Some p /\
    forall call st,
      start Sample.root p = Running call st ->
      command call = Js.lit "devvit" /\
      argv call = [Js.lit "logs"; Js.lit "mySubreddit"; Js.lit "--verbose"].
Proof.
  apply (minimal_call
           [("subreddit"%string, Js.VString (Js.lit "mySubreddit"))]
           Sample.root (Js.lit "mySubreddit") eq_refl).
  unfold declaredKeys. simpl. intros k Hin Hne.
  destruct (String.eqb_spec k "subreddit"); [contradiction|reflexivity].
Defined.

Lemma inputSchema_accepts_witness :
  inputSchema [("subreddit"%string, Js.VString (Js.lit "s"));
               ("since"%string, Js.VOther)] = None.
Proof.
  destruct (inputSchema [("subreddit"%string, Js.VString (Js.lit "s"));
                         ("since"%string, Js.VOther)]) eqn:E; [|reflexivity].
  exfalso.
  assert (H : inputSchema [("subreddit"%string, Js.VString (Js.lit "s"));
                           ("since"%string, Js.VOther)] <> None)
    by (rewrite E; discriminate).
  apply (proj1 (inputSchema_accepts _)) in H.
  destruct H as (_ & _ & _ & _ & _ & _ & [Hs|[x Hs]] & _); discriminate Hs.
Defined.

(** ** Further properties: truncation *)

Lemma truncate_short (str : jsstring) :
  (List.length str <= 2000)%nat -> truncate str = str.
Proof.
  intros H. unfold truncate.
  replace (Js.length str >? MAX_LENGTH)%Z with false; [reflexivity|].
  symmetry. unfold Js.length, MAX_LENGTH.
  rewrite Z.gtb_ltb. apply Z.ltb_ge. lia.
Qed.

Lemma truncate_long (str : jsstring) :
  (2000 < List.length str)%nat ->
  truncate str = ellipsis :: skipn (List.length str - 2000) str.
Proof.
  intros H. unfold truncate.
  replace (Js.length str >? MAX_LENGTH)%Z with true;
    [now rewrite slice_tail|].
  symmetry. unfold Js.length, MAX_LENGTH.
  rewrite Z.gtb_ltb. apply Z.ltb_lt. lia.
Qed.

Lemma truncate_le (str : jsstring) :
  (List.length (truncate str) <= 2001)%nat.
Proof.
  destruct (Nat.le_gt_cases (List.length str) 2000) as [H|H].
  - rewrite truncate_short by exact H. lia.
  - rewrite truncate_long by exact H. simpl. rewrite length_skipn. lia.
Qed.

(** X4: the text [truncate] returns has at most 2001 code units: the cap of
    2000 plus the ellipsis; a string that was cut has exactly 2001. *)
Theorem truncate_length (str : jsstring) :
  (List.length (truncate str) <= 2001)%nat /\
  ((2000 < List.length str)%nat -> List.length (truncate str) = 2001%nat).
Proof.
  destruct (Nat.le_gt_cases (List.length str) 2000) as [H|H].
  - rewrite truncate_short by exact H. split; lia.
  - rewrite truncate_long by exact H. simpl. rewrite length_skipn.
    split; lia.
Qed.

Lemma truncate_length_witness :
  (List.length (truncate Sample.longText) <= 2001)%nat /\
  List.length (truncate Sample.longText) = 2001%nat.
Proof.
  split.
  - exact (proj1 (truncate_length Sample.longText)).
  - apply (proj2 (truncate_length Sample.longText)).
    unfold Sample.longText. rewrite length_app, repeat_length. simpl. lia.
Defined.

(** X5: truncating twice is truncating once: a text that was cut is given
    back as it is, even though it is one code unit over the cap. *)
Theorem truncate_idempotent (str : jsstring) :
  truncate (truncate str) = truncate str.
Proof.
  destruct (Nat.le_gt_cases (List.length str) 2000) as [H|H].
  - now rewrite !truncate_short by (rewrite ?truncate_short; exact H).
  - rewrite (truncate_long str H).
    set (back := skipn (List.length str - 2000) str).
    assert (Hb : List.length back = 2000%nat)
      by (unfold back; rewrite length_skipn; lia).
    rewrite truncate_long by (simpl; lia).
    simpl List.length. rewrite Hb.
    replace (2001 - 2000)%nat with 1%nat by lia. reflexivity.
Qed.

(** [truncate] never empties a text: its result is empty exactly when its
    argument is. *)
Lemma truncate_nil_iff (str : jsstring) :
  truncate str = [] <-> str = [].
Proof.
  destruct (Nat.le_gt_cases (List.length str) 2000) as [H|H].
  - now rewrite truncate_short.
  - rewrite truncate_long by exact H. split; [discriminate|].
    intros ->. simpl in H. lia.
Qed.

(** ** Further properties: what the caller receives *)

(** A trace either holds no resolving event, or splits at its first one. *)
Lemma first_resolving (evs : list Event) :
  Forall (fun x => resolves x = false) evs \/
  exists pre ev post,
    evs = pre ++ ev :: post /\
    Forall (fun x => resolves x = false) pre /\ resolves ev = true.
Proof.
  induction evs as [|a evs IH]; [left; constructor|].
  destruct (resolves a) eqn:Ea.
  - right. exists [], a, evs. repeat split; [constructor|exact Ea].
  - destruct IH as [IH|(pre & ev & post & -> & Hpre & Hev)].
    + left. now constructor.
    + right. exists (a :: pre), ev, post. repeat split; [|exact Hev].
      now constructor.
Qed.

Lemma envelopeOf_resolves (st : Child) (ev : Event) :
  resolves ev = true -> exists e, envelopeOf st ev = Some e.
Proof. destruct ev; simpl; intros H; try discriminate; eauto. Qed.

(** The result of a running invocation over any trace. *)
Lemma result_running (root : option jsstring) (p : Params)
  (call : SpawnCall) (st : Child) (evs : list Event) :
  start root p = Running call st ->
  (Forall (fun x => resolves x = false) evs /\
   result (handler root p evs) = None) \/
  (exists pre ev post e,
     evs = pre ++ ev :: post /\
     Forall (fun x => resolves x = false) pre /\
     envelopeOf (run st pre) ev = Some e /\
     result (handler root p evs) = Some e).
Proof.
  intros Hst.
  destruct (start_running_inv root p call st Hst)
    as (_ & _ & _ & _ & _ & _ & Hp).
  unfold handler. rewrite Hst. simpl result.
  destruct (first_resolving evs) as [Hq|(pre & ev & post & -> & Hpre & Hev)].
  - left. split; [exact Hq|]. now rewrite quiet_run.
  - right. destruct (envelopeOf_resolves (run st pre) ev Hev) as [e He].
    exists pre, ev, post, e. repeat split; try assumption.
    now apply first_resolution.
Qed.

Lemma start_rejected (root : option jsstring) (p : Params) (e : Envelope) :
  start root p = Rejected e ->
  e = appRequired /\
  Js.truthy_opt root = false /\ Js.truthy_opt (app p) = false.
Proof.
  unfold start.
  destruct (Js.truthy_opt root), (Js.truthy_opt (app p)); simpl;
    intros E; try discriminate E. injection E as <-. auto.
Qed.

Lemma or_nonempty (a b : jsstring) : b <> [] -> Js.or a b <> [].
Proof. unfold Js.or. destruct a; simpl; [auto|discriminate]. Qed.

Lemma lit_nonempty (c : ascii) (s : string) : Js.lit (String c s) <> [].
Proof. discriminate. Qed.

(** X6: every envelope the handler delivers, on every path, holds exactly
    one content item, of type ["text"], and its text is never empty. *)
Theorem envelope_one_text (root : option jsstring) (p : Params)
  (evs : list Event) (e : Envelope) :
  result (handler root p evs) = Some e ->
  exists t, t <> [] /\ content e = [{| type := Js.lit "text"; text := t |}].
Proof.
  destruct (start root p) as [e0|call st] eqn:Hst.
  - unfold handler. rewrite Hst. simpl. intros E; injection E as <-.
    apply start_rejected in Hst as (-> & _).
    eexists; split; [|reflexivity]. discriminate.
  - destruct (result_running root p call st evs Hst)
      as [[_ ->]|(pre & ev & post & e' & _ & _ & He & ->)]; [discriminate|].
    intros E; injection E as ->.
    destruct ev as [c|c|err| |code]; simpl in He; try discriminate He;
      injection He as <-.
    + eexists; split; [|reflexivity]. discriminate.
    + unfold closeEnvelope.
      destruct code as [[| |]|]; (eexists; split; [|reflexivity]).
      * apply or_nonempty. discriminate.
      * rewrite truncate_nil_iff. apply or_nonempty, or_nonempty. discriminate.
      * rewrite truncate_nil_iff. apply or_nonempty, or_nonempty. discriminate.
      * rewrite truncate_nil_iff. apply or_nonempty, or_nonempty. discriminate.
Qed.

Lemma envelope_one_text_witness :
  exists t, t <> [] /\
    content {| content := [textItem (Js.lit "Unknown error")]; isError := true |}
      = [{| type := Js.lit "text"; text := t |}].
Proof.
  apply (envelope_one_text Sample.root Sample.minimalParams
           [TimerFired; Close None]).
  reflexivity.
Defined.

(** X7: the caller receives [isError] false only if a process was spawned
    and the first error or close event of its trace is a close with exit
    code 0. *)
Theorem success_requires_exit_zero (root : option jsstring) (p : Params)
  (evs : list Event) (e : Envelope) :
  result (handler root p evs) = Some e ->
  isError e = false ->
  exists pre post,
    evs = pre ++ Close (Some 0%Z) :: post /\
    Forall (fun x => resolves x = false) pre /\
    spawned (handler root p evs) <> [].
Proof.
  destruct (start root p) as [e0|call st] eqn:Hst.
  - unfold handler. rewrite Hst. simpl. intros E; injection E as <-.
    apply start_rejected in Hst as (-> & _). discriminate.
  - destruct (result_running root p call st evs Hst)
      as [[_ ->]|(pre & ev & post & e' & -> & Hpre & He & ->)]; [discriminate|].
    intros E; injection E as ->. intros Herr.
    destruct ev as [c|c|err| |code]; simpl in He; try discriminate He;
      injection He as <-; [discriminate Herr|].
    unfold closeEnvelope in Herr.
    destruct code as [[| |]|]; try discriminate Herr.
    exists pre, post. repeat split; [exact Hpre|].
    unfold handler. rewrite Hst. discriminate.
Qed.

Lemma success_requires_exit_zero_witness :
  exists pre post,
    [StdoutData (Js.lit "ok"); Close (Some 0%Z); TimerFired]
      = pre ++ Close (Some 0%Z) :: post /\
    Forall (fun x => resolves x = false) pre /\
    spawned (handler Sample.root Sample.minimalParams
               [StdoutData (Js.lit "ok"); Close (Some 0%Z); TimerFired]) <> [].
Proof.
  apply (success_requires_exit_zero Sample.root Sample.minimalParams
           [StdoutData (Js.lit "ok"); Close (Some 0%Z); TimerFired]
           {| content := [textItem (Js.lit "ok")]; isError := false |});
    reflexivity.
Defined.


Lemma close_result (root : option jsstring) (p : Params)
  (call : SpawnCall) (st : Child) (pre post : list Event) (code : option Z) :
  start root p = Running call st ->
  Forall (fun ev => resolves ev = false) pre ->
  result (handler root p (pre ++ Close code :: post)) =
    Some (closeEnvelope code (stdoutOf pre) (stderrOf pre)).
Proof.
  intros Hst Hpre. unfold handler. rewrite Hst. simpl result.
  destruct (start_running_inv root p call st Hst)
    as (_ & _ & _ & _ & _ & _ & Hp).
  apply first_resolution; [exact Hp|exact Hpre|]. simpl.
  now destruct (buffers_from_start root p call st pre Hst) as [-> ->].
Qed.

(** X9: when the promise is settled by a close event, whatever the exit
    code, the text handed to the caller has at most 2001 code units,
    however much the child wrote. *)
Theorem close_text_bounded (root : option jsstring) (p : Params)
  (call : SpawnCall) (st : Child) (pre post : list Event) (code : option Z) :
  start root p = Running call st ->
  Forall (fun ev => resolves ev = false) pre ->
  exists e t,
    result (handler root p (pre ++ Close code :: post)) = Some e /\
    content e = [textItem t] /\ (List.length t <= 2001)%nat.
Proof.
  intros Hst Hpre. rewrite (close_result root p call st pre post code Hst Hpre).
  unfold closeEnvelope.
  assert (Hok : forall out,
            (List.length (Js.or (truncate out)
                            (Js.lit "No log output returned.")) <= 2001)%nat).
  { intros out. unfold Js.or. destruct (Js.truthy (truncate out)).
    - apply truncate_le.
    - simpl. lia. }
  destruct code as [[| |]|]; eexists; eexists;
    (split; [reflexivity|split; [reflexivity|]]);
    solve [apply Hok | apply truncate_le].
Qed.

Lemma close_text_bounded_witness :
  exists call st,
    start Sample.root Sample.minimalParams = Running call st /\
    exists e t,
      result (handler Sample.root Sample.minimalParams
                ([StderrData Sample.longText; StderrData Sample.longText]
                   ++ Close (Some 1%Z) :: [])) = Some e /\
      content e = [textItem t] /\ (List.length t <= 2001)%nat.
Proof.
  eexists; eexists; split; [reflexivity|].
  apply (close_text_bounded Sample.root Sample.minimalParams _ _
           [StderrData Sample.longText; StderrData Sample.longText] []
           (Some 1%Z) eq_refl).
  repeat constructor.
Defined.

(** X10: the envelope of a close depends on what came before only through
    the text accumulated for each stream, that is the concatenation of the
    [chunk.toString()] of its chunks (an event carries that decoded text,
    not the bytes): how the chunks of stdout and stderr interleaved, whether
    the timer fired in between and what came after the close make no
    difference. *)
Theorem interleaving_irrelevant (root : option jsstring) (p : Params)
  (call : SpawnCall) (st : Child) (pre pre' post post' : list Event)
  (code : option Z) :
  start root p = Running call st ->
  Forall (fun ev => resolves ev = false) pre ->
  Forall (fun ev => resolves ev = false) pre' ->
  stdoutOf pre = stdoutOf pre' ->
  stderrOf pre = stderrOf pre' ->
  result (handler root p (pre ++ Close code :: post)) =
  result (handler root p (pre' ++ Close code :: post')).
Proof.
  intros Hst Hpre Hpre' Ho He.
  rewrite (close_result root p call st pre post code Hst Hpre).
  rewrite (close_result root p call st pre' post' code Hst Hpre').
  now rewrite Ho, He.
Qed.

Lemma interleaving_irrelevant_witness :
  exists call st,
    start Sample.root Sample.minimalParams = Running call st /\
    result (handler Sample.root Sample.minimalParams
              ([StdoutData (Js.lit "ab"); StderrData (Js.lit "e");
                StdoutData (Js.lit "c")] ++ Close None :: [])) =
    result (handler Sample.root Sample.minimalParams
              ([StderrData (Js.lit "e"); TimerFired;
                StdoutData (Js.lit "a"); StdoutData (Js.lit "bc")]
                 ++ Close None :: [TimerFired])).
Proof.
  eexists; eexists; split; [reflexivity|].
  apply (interleaving_irrelevant Sample.root Sample.minimalParams _ _
           [StdoutData (Js.lit "ab"); StderrData (Js.lit "e");
            StdoutData (Js.lit "c")]
           [StderrData (Js.lit "e"); TimerFired;
            StdoutData (Js.lit "a"); StdoutData (Js.lit "bc")]
           [] [TimerFired] None eq_refl);
    try reflexivity; repeat constructor.
Defined.



(** ** Further properties: the timer and the signal *)

(** What one callback does to the timer and to the signals sent. *)
Lemma step_timer_killed (st : Child) (ev : Event) :
  match ev with
  | TimerFired =>
      match timer st with
      | Some _ => timer (step st ev) = None
                  /\ killed (step st ev) = killed st ++ [SIGINT]
      | None => timer (step st ev) = None /\ killed (step st ev) = killed st
      end
  | Close _ => timer (step st ev) = None /\ killed (step st ev) = killed st
  | _ => timer (step st ev) = timer st /\ killed (step st ev) = killed st
  end.
Proof.
  destruct ev as [c|c|err| |code]; simpl; auto.
  - match goal with |- context [resolve ?e ?s] =>
      destruct (resolve_keeps e s) as (_ & _ & -> & ->) end. auto.
  - destruct (timer st) eqn:E; simpl; auto.
  - match goal with |- context [resolve ?e ?s] =>
      destruct (resolve_keeps e s) as (_ & _ & -> & ->) end.
    destruct code as [[| |]|]; simpl; auto.
Qed.

(** Once the timer is gone, no callback sends a signal. *)
Lemma timer_gone_run (evs : list Event) (st : Child) :
  timer st = None ->
  timer (run st evs) = None /\ killed (run st evs) = killed st.
Proof.
  revert st. induction evs as [|ev evs IH]; intros st Ht; simpl; [auto|].
  assert (Hs : timer (step st ev) = None /\ killed (step st ev) = killed st).
  { pose proof (step_timer_killed st ev) as H.
    destruct ev; try rewrite Ht in H; destruct H as [H1 H2];
      split; congruence. }
  destruct Hs as [H1 H2]. destruct (IH _ H1) as [-> ->]. auto.
Qed.

(** X12: over any trace [child.kill] is called at most once, with
    [SIGINT], and once it was called the timer is no longer pending. *)
Theorem sigint_at_most_once (root : option jsstring) (p : Params)
  (call : SpawnCall) (st : Child) (evs : list Event) :
  start root p = Running call st ->
  killed (run st evs) = [] \/
  (killed (run st evs) = [SIGINT] /\ timer (run st evs) = None).
Proof.
  intros Hst.
  destruct (start_running_inv root p call st Hst)
    as (_ & _ & _ & _ & _ & Hk & _).
  assert (Hinv : killed st = [] \/ (killed st = [SIGINT] /\ timer st = None))
    by (left; exact Hk).
  clear Hst Hk. revert st Hinv.
  induction evs as [|ev evs IH]; intros st Hinv; simpl; [exact Hinv|].
  apply IH. pose proof (step_timer_killed st ev) as H.
  destruct ev; try (destruct H as [-> ->]; exact Hinv).
  - destruct (timer st) eqn:Et; destruct H as [-> ->].
    + destruct Hinv as [->|[_ Habs]]; [right; auto|discriminate Habs].
    + destruct Hinv as [->|[-> _]]; auto.
  - destruct H as [-> ->]. destruct Hinv as [->|[-> _]]; auto.
Qed.

Lemma sigint_at_most_once_witness :
  exists call st,
    start Sample.root Sample.minimalParams = Running call st /\
    (killed (run st [TimerFired; TimerFired; Close None; TimerFired]) = [] \/
     (killed (run st [TimerFired; TimerFired; Close None; TimerFired])
        = [SIGINT] /\
      timer (run st [TimerFired; TimerFired; Close None; TimerFired]) = None)).
Proof.
  eexists; eexists; split; [reflexivity|].
  exact (sigint_at_most_once Sample.root Sample.minimalParams _ _
           [TimerFired; TimerFired; Close None; TimerFired] eq_refl).
Defined.

(** X13: only the close callback cancels the timer. When the timer fires
    and no close event came before, [SIGINT] is sent, also when an
    error event has already settled the promise. *)
Theorem timer_survives_error (root : option jsstring) (p : Params)
  (call : SpawnCall) (st : Child) (pre post : list Event) :
  start root p = Running call st ->
  Forall (fun ev => forall code, ev <> Close code) pre ->
  killed (run st (pre ++ TimerFired :: post)) = [SIGINT].
Proof.
  intros Hst Hpre.
  destruct (start_running_inv root p call st Hst)
    as (_ & _ & _ & _ & Ht & Hk & _).
  assert (Hinv : (timer st <> None /\ killed st = [])
                 \/ (timer st = None /\ killed st = [SIGINT]))
    by (left; split; [congruence|exact Hk]).
  clear Hst Ht Hk. revert st Hinv.
  induction pre as [|ev pre IH]; intros st Hinv;
    rewrite ?app_nil_l, <- ?app_comm_cons, run_cons.
  - pose proof (step_timer_killed st TimerFired) as H. cbv beta iota in H.
    destruct (timer st) eqn:Et; destruct H as [H1 H2];
      destruct (timer_gone_run post _ H1) as [_ ->]; rewrite H2;
      destruct Hinv as [[Hn Hk]|[Hn Hk]]; rewrite Hk; try reflexivity.
    + discriminate Hn.
    + now contradiction Hn.
  - inversion Hpre as [|? ? Hev Hrest]; subst. apply IH; [exact Hrest|].
    pose proof (step_timer_killed st ev) as H.
    destruct ev; try (destruct H as [-> ->]; exact Hinv).
    + destruct (timer st) eqn:Et; destruct H as [-> ->].
      * destruct Hinv as [[_ ->]|[Habs _]]; [right; auto|discriminate Habs].
      * destruct Hinv as [[Hn _]|[_ ->]]; [now contradiction Hn|right; auto].
    + now contradiction (Hev code).
Qed.

Lemma timer_survives_error_witness :
  exists call st,
    start Sample.root Sample.minimalParams = Running call st /\
    killed (run st ([ErrorEvent (ErrorObject (Js.lit "spawn devvit ENOENT"))]
                      ++ TimerFired :: [Close (Some (-2)%Z)])) = [SIGINT].
Proof.
  eexists; eexists; split; [reflexivity|].
  apply (timer_survives_error Sample.root Sample.minimalParams _ _
           [ErrorEvent (ErrorObject (Js.lit "spawn devvit ENOENT"))]
           [Close (Some (-2)%Z)] eq_refl).
  repeat constructor. discriminate.
Defined.

(** X14: when the child closes before the timer fires, no signal is ever
    sent, whatever is delivered afterwards. *)
Theorem close_cancels_timer (root : option jsstring) (p : Params)
  (call : SpawnCall) (st : Child) (pre post : list Event) (code : option Z) :
  start root p = Running call st ->
  Forall (fun ev => ev <> TimerFired) pre ->
  killed (run st (pre ++ Close code :: post)) = [].
Proof.
  intros Hst Hpre.
  destruct (start_running_inv root p call st Hst)
    as (_ & _ & _ & _ & _ & Hk & _).
  clear Hst. revert st Hk.
  induction pre as [|ev pre IH]; intros st Hk;
    rewrite ?app_nil_l, <- ?app_comm_cons, run_cons.
  - destruct (step_timer_killed st (Close code)) as [H1 H2].
    destruct (timer_gone_run post _ H1) as [_ ->]. now rewrite H2.
  - inversion Hpre as [|? ? Hev Hrest]; subst. apply IH; [exact Hrest|].
    pose proof (step_timer_killed st ev) as H.
    destruct ev; try (destruct H as [_ ->]; exact Hk).
    now contradiction Hev.
Qed.

Lemma close_cancels_timer_witness :
  exists call st,
    start Sample.root Sample.minimalParams = Running call st /\
    killed (run st ([StdoutData (Js.lit "x")]
                      ++ Close (Some 0%Z) :: [TimerFired; TimerFired])) = [].
Proof.
  eexists; eexists; split; [reflexivity|].
  apply (close_cancels_timer Sample.root Sample.minimalParams _ _
           [StdoutData (Js.lit "x")] [TimerFired; TimerFired] (Some 0%Z)
           eq_refl).
  repeat constructor. discriminate.
Defined.

(** ** Further properties: the spawn and its arguments *)


(** X16: the argument vector has between 2 and 12 tokens. *)
Theorem buildArgs_length (p : Params) :
  (2 <= List.length (buildArgs p) <= 12)%nat.
Proof.
  destruct (buildArgs_segments p) as (a & c & d & s & E & Ha & Hc & Hd & Hs).
  rewrite E. rewrite !length_app.
  assert (La : (List.length a <= 1)%nat)
    by (destruct Ha as [(x & _ & _ & ->)|[_ ->]]; simpl; lia).
  assert (Lc : (List.length c <= 2)%nat)
    by (destruct Hc as [(x & _ & _ & ->)|[_ ->]]; simpl; lia).
  assert (Ld : (List.length d <= 2)%nat)
    by (destruct Hd as [(x & _ & _ & ->)|[_ ->]]; simpl; lia).
  assert (Ls : (List.length s <= 2)%nat)
    by (destruct Hs as [(x & _ & _ & ->)|[_ ->]]; simpl; lia).
  destruct (connect p), (json p), (verbose p); simpl; lia.
Qed.

(** X17: after ["logs"] and the subreddit, which is passed on even when it
    is the empty string, no token of the argument vector is empty. *)
Theorem buildArgs_tokens_nonempty (p : Params) :
  nth_error (buildArgs p) 1 = Some (subreddit p) /\
  Forall (fun token => token <> []) (skipn 2 (buildArgs p)).
Proof.
  destruct (buildArgs_segments p) as (a & c & d & s & E & Ha & Hc & Hd & Hs).
  rewrite E. split; [reflexivity|].
  match goal with |- Forall _ (skipn 2 (_ ++ ?rest)) =>
    change (Forall (fun token : jsstring => token <> []) rest) end.
  rewrite !Forall_app. repeat split.
  - destruct Ha as [(x & _ & Hx & ->)|[_ ->]]; repeat constructor; exact Hx.
  - destruct Hc as [(x & _ & Hx & ->)|[_ ->]]; repeat constructor;
      [discriminate|exact Hx].
  - destruct (connect p); repeat constructor. discriminate.
  - destruct Hd as [(x & _ & Hx & ->)|[_ ->]]; repeat constructor;
      [discriminate|exact Hx].
  - destruct (json p); repeat constructor. discriminate.
  - destruct Hs as [(x & _ & Hx & ->)|[_ ->]]; repeat constructor;
      [discriminate|exact Hx].
  - destruct (verbose p); repeat constructor. discriminate.
Qed.

(** X18: values are passed on as they are, so the argument vector does not
    tell a value from a flag: when no positional [app], [--config],
    [--connect] or [--dateformat] is emitted, an [app] of ["--json"] gives
    the very vector that the [json] flag gives. *)
Theorem flag_like_app (p : Params) :
  Js.truthy_opt (app p) = false ->
  Js.truthy_opt (config p) = false ->
  connect p = false ->
  Js.truthy_opt (dateformat p) = false ->
  json p = true ->
  buildArgs {| subreddit := subreddit p; app := Some (Js.lit "--json");
               config := config p; connect := connect p;
               dateformat := dateformat p; json := false;
               since := since p; verbose := verbose p |}
  = buildArgs p.
Proof.
  destruct p as [sub a c n d j s v]. simpl.
  intros Ha Hc -> Hd ->. unfold buildArgs, pushStr, pushIf. simpl.
  destruct a as [[|? ?]|]; try discriminate Ha;
    destruct c as [[|? ?]|]; try discriminate Hc;
    destruct d as [[|? ?]|]; try discriminate Hd; reflexivity.
Qed.

Lemma flag_like_app_witness :
  buildArgs {| subreddit := Js.lit "s"; app := Some (Js.lit "--json");
               config := None; connect := false; dateformat := None;
               json := false; since := Some (Js.lit "1h"); verbose := true |}
  = buildArgs {| subreddit := Js.lit "s"; app := None;
                 config := None; connect := false; dateformat := None;
                 json := true; since := Some (Js.lit "1h"); verbose := true |}.
Proof.
  exact (flag_like_app
           {| subreddit := Js.lit "s"; app := None;
              config := None; connect := false; dateformat := None;
              json := true; since := Some (Js.lit "1h"); verbose := true |}
           eq_refl eq_refl eq_refl eq_refl eq_refl).
Defined.

(** ** The close event *)

(** What the caller has after a resolving event, whatever came before it:
    the envelope of an earlier resolving event if there was one, else the
    envelope of this one. *)
Lemma result_at_resolving (root : option jsstring) (p : Params)
  (call : SpawnCall) (st : Child) (pre post : list Event) (ev : Event) :
  start root p = Running call st ->
  resolves ev = true ->
  result (handler root p (pre ++ ev :: post)) =
    match promise (run st pre) with
    | Some earlier => Some earlier
    | None => envelopeOf (run st pre) ev
    end.
Proof.
  intros Hst Hev. unfold handler. rewrite Hst. simpl result.
  rewrite run_app, run_cons.
  destruct (promise (run st pre)) as [earlier|] eqn:Hp.
  - apply settled_run. now apply settled_step.
  - destruct (envelopeOf_resolves (run st pre) ev Hev) as [e He].
    rewrite He. apply settled_run. now rewrite resolving_step.
Qed.

Lemma pending_of_quiet (root : option jsstring) (p : Params)
  (call : SpawnCall) (st : Child) (pre : list Event) :
  start root p = Running call st ->
  Forall (fun ev => resolves ev = false) pre ->
  promise (run st pre) = None.
Proof.
  intros Hst Hpre.
  destruct (start_running_inv root p call st Hst)
    as (_ & _ & _ & _ & _ & _ & Hp).
  now rewrite quiet_run.
Qed.

(** The two cases of [truncate], without the function. *)
Lemma truncate_cases (str : jsstring) :
  ((List.length str <= 2000)%nat -> truncate str = str) /\
  ((2000 < List.length str)%nat ->
   exists front back,
     str = front ++ back /\ List.length back = 2000%nat /\
     truncate str = [ellipsis] ++ back).
Proof.
  split; intros H; [now apply truncate_short|].
  exists (firstn (List.length str - 2000) str),
         (skipn (List.length str - 2000) str).
  split; [symmetry; apply firstn_skipn|].
  split; [rewrite length_skipn; lia|]. now apply truncate_long.
Qed.



(** C6, as stated, fails twice. With both buffers empty and exit code 1 the
    text is ["Unknown error"], not ["unknown error"]. And a failed spawn
    delivers an error event and then a close with a negative code: the
    caller then holds the spawn-failure envelope, not a text made from the
    buffers. *)
Lemma close_failure_as_stated :
  ~ (forall (root : option jsstring) (p : Params) (call : SpawnCall)
            (st : Child) (pre post : list Event) (code : option Z),
       start root p = Running call st ->
       Forall (fun ev => resolves ev = false) pre ->
       code <> Some 0%Z ->
       result (handler root p (pre ++ Close code :: post)) =
         Some {| content :=
                   [{| type := Js.lit "text";
                       text := truncate
                                 match stderrOf pre, stdoutOf pre with
                                 | _ :: _, _ => stderrOf pre
                                 | [], _ :: _ => stdoutOf pre
                                 | [], [] => Js.lit "unknown error"
                                 end |}];
                 isError := true |}) /\
  ~ (forall (root : option jsstring) (p : Params) (call : SpawnCall)
            (st : Child) (pre post : list Event) (code : option Z),
       start root p = Running call st ->
       code <> Some 0%Z ->
       result (handler root p (pre ++ Close code :: post)) =
         Some {| content :=
                   [{| type := Js.lit "text";
                       text := truncate
                                 match stderrOf pre, stdoutOf pre with
                                 | _ :: _, _ => stderrOf pre
                                 | [], _ :: _ => stdoutOf pre
                                 | [], [] => Js.lit "Unknown error"
                                 end |}];
                 isError := true |}).
Proof.
  split; intros H.
  - assert (Hcode : Some 1%Z <> Some 0%Z) by discriminate.
    pose proof (H Sample.root Sample.minimalParams _ _ [] [] (Some 1%Z)
                  eq_refl (Forall_nil _) Hcode) as E.
    vm_compute in E. discriminate E.
  - assert (Hcode : Some (-2)%Z <> Some 0%Z) by discriminate.
    pose proof (H Sample.root Sample.minimalParams _ _
                  [ErrorEvent (ErrorObject (Js.lit "spawn devvit ENOENT"))]
                  [] (Some (-2)%Z) eq_refl Hcode) as E.
    vm_compute in E. discriminate E.
Qed.

(** C6 (amended): when the child closes with any exit code other than 0,
    [null] included, the close callback resolves with the envelope with
    [isError] true whose one text item is made from the stderr text if not
    empty, else from the stdout text if not empty, else from the literal
    ["Unknown error"]: that text itself when it has at most 2000 code
    units, else the ellipsis followed by its last 2000 code units. The
    caller receives it when only data and the timer came before the close;
    when an error or close event came before, the envelope of that earlier
    event stands. *)
Theorem close_failure (root : option jsstring) (p : Params)
  (call : SpawnCall) (st : Child) (pre post : list Event) (code : option Z) :
  start root p = Running call st ->
  code <> Some 0%Z ->
  exists t source : jsstring,
    result (handler root p (pre ++ Close code :: post)) =
      Some match promise (run st pre) with
           | Some earlier => earlier
           | None => {| content := [{| type := Js.lit "text"; text := t |}];
                        isError := true |}
           end /\
    (Forall (fun ev => resolves ev = false) pre ->
     promise (run st pre) = None) /\
    source = match stderrOf pre, stdoutOf pre with
             | _ :: _, _ => stderrOf pre
             | [], _ :: _ => stdoutOf pre
             | [], [] => Js.lit "Unknown error"
             end /\
    ((List.length source <= 2000)%nat -> t = source) /\
    ((2000 < List.length source)%nat ->
     exists front back,
       source = front ++ back /\ List.length back = 2000%nat /\
       t = [ellipsis] ++ back).
Proof.
  intros Hst Hcode.
  set (source := match stderrOf pre, stdoutOf pre with
                 | _ :: _, _ => stderrOf pre
                 | [], _ :: _ => stdoutOf pre
                 | [], [] => Js.lit "Unknown error"
                 end).
  exists (truncate source), source.
  split.
  { rewrite (result_at_resolving root p call st pre post
               (Close code) Hst eq_refl).
    destruct (promise (run st pre)); [reflexivity|]. simpl.
    destruct (buffers_from_start root p call st pre Hst) as [-> ->].
    unfold closeEnvelope, textItem, Js.or, source.
    destruct code as [[| |]|]; try congruence;
      destruct (stderrOf pre), (stdoutOf pre); reflexivity. }
  split; [exact (pending_of_quiet root p call st pre Hst)|].
  split; [reflexivity|]. apply truncate_cases.
Qed.

Lemma close_failure_witness :
  exists call st,
    start Sample.root Sample.minimalParams = Running call st /\
    exists t front back,
      result (handler Sample.root Sample.minimalParams
                ([StdoutData (Js.lit "partial"); StderrData Sample.longText;
                  TimerFired] ++ Close None :: [])) =
        Some {| content := [{| type := Js.lit "text"; text := t |}];
                isError := true |} /\
      Sample.longText = front ++ back /\ List.length back = 2000%nat /\
      t = [ellipsis] ++ back.
Proof.
  assert (Hcode : @None Z <> Some 0%Z) by discriminate.
  eexists; eexists; split; [reflexivity|].
  destruct (close_failure Sample.root Sample.minimalParams _ _
              [StdoutData (Js.lit "partial"); StderrData Sample.longText;
               TimerFired] [] None eq_refl Hcode)
    as (t & source & Hres & Hpend & Hsrc & _ & Hlong).
  rewrite Hpend in Hres by (repeat constructor).
  assert (Es : source = Sample.longText) by (rewrite Hsrc; reflexivity).
  rewrite Es in Hlong.
  destruct Hlong as (front & back & E & Hb & Ht).
  { unfold Sample.longText. rewrite length_app, repeat_length. simpl. lia. }
  exists t, front, back. repeat split; assumption.
Defined.

(** ** The error event *)

(** C8, as stated, fails: the error path does not bypass the timeout and
    the close handling. After the error event the timer is still pending,
    and a close that follows still runs its callback, which changes the
    state. *)
Lemma error_path_not_bypassed :
  ~ (forall (root : option jsstring) (p : Params) (call : SpawnCall)
            (st : Child) (err : JsError),
       start root p = Running call st ->
       timer (run st [ErrorEvent err]) = None) /\
  ~ (forall (root : option jsstring) (p : Params) (call : SpawnCall)
            (st : Child) (err : JsError) (code : option Z),
       start root p = Running call st ->
       step (run st [ErrorEvent err]) (Close code) = run st [ErrorEvent err]).
Proof.
  split; intros H.
  - pose proof (H Sample.root Sample.minimalParams _ _
                  (ErrorObject (Js.lit "spawn devvit ENOENT")) eq_refl) as E.
    vm_compute in E. discriminate E.
  - pose proof (H Sample.root Sample.minimalParams _ _
                  (ErrorObject (Js.lit "spawn devvit ENOENT"))
                  (Some (-2)%Z) eq_refl) as E.
    apply (f_equal timer) in E. vm_compute in E. discriminate E.
Qed.

(** C8 (amended): when the child emits an error event while the promise is
    pending, the promise settles at once with the envelope with [isError]
    true whose text is ["Failed to execute devvit logs: "] followed by the
    error's message; the callback reads neither buffer, and nothing that
    comes later changes what the caller receives. The timeout and the close
    handling are not bypassed: the callback leaves the timer as it was, so
    after a failed spawn the timer of 2000 ms is still pending and sends
    [SIGINT] if it fires, and a close that follows still runs its callback,
    which clears the timer and logs. *)
Theorem spawn_error_envelope (root : option jsstring) (p : Params)
  (call : SpawnCall) (st : Child) (pre post : list Event) (err : JsError) :
  start root p = Running call st ->
  Forall (fun ev => resolves ev = false) pre ->
  let failed := run st (pre ++ [ErrorEvent err]) in
  promise failed =
    Some {| content :=
              [{| type := Js.lit "text";
                  text := Js.lit "Failed to execute devvit logs: "
                            ++ errorText err |}];
            isError := true |} /\
  result (handler root p (pre ++ ErrorEvent err :: post)) = promise failed /\
  timer failed = timer (run st pre) /\
  killed failed = killed (run st pre) /\
  (Forall (fun ev => isData ev = true) pre ->
   timer failed = Some 2000%N /\
   killed (step failed TimerFired) = [SIGINT]) /\
  (forall code : option Z,
     timer (step failed (Close code)) = None /\
     promise (step failed (Close code)) = promise failed /\
     logged (step failed (Close code)) =
       logged failed ++ [match code with
                         | Some 0%Z => InfoCompleted
                         | _ => WarnExited code
                         end]).
Proof.
  intros Hst Hpre failed.
  destruct (start_running_inv root p call st Hst)
    as (_ & _ & _ & _ & Ht & Hk & Hp).
  assert (Hf : promise failed = Some (errorEnvelope err)).
  { unfold failed.
    replace (pre ++ [ErrorEvent err]) with (pre ++ ErrorEvent err :: [])
      by reflexivity.
    now apply first_resolution. }
  assert (Htk : timer failed = timer (run st pre)
                /\ killed failed = killed (run st pre)).
  { unfold failed. rewrite run_snoc.
    exact (step_timer_killed (run st pre) (ErrorEvent err)). }
  destruct Htk as [Eft Efk].
  split; [exact Hf|]. split.
  { unfold handler. rewrite Hst, Hf. simpl result.
    now apply first_resolution. }
  split; [exact Eft|]. split; [exact Efk|]. split.
  - intros Hdata. destruct (data_run pre st Hdata) as [Etp Ekp].
    assert (Etf : timer failed = Some 2000%N) by (now rewrite Eft, Etp).
    split; [exact Etf|].
    pose proof (step_timer_killed failed TimerFired) as H.
    cbv beta iota in H. rewrite Etf in H. destruct H as [_ ->].
    now rewrite Efk, Ekp, Hk.
  - intros code.
    split; [exact (proj1 (step_timer_killed failed (Close code)))|].
    split; [rewrite Hf; now apply settled_step|].
    simpl. unfold resolve.
    destruct code as [[| |]|]; simpl; rewrite Hf; reflexivity.
Qed.

Lemma spawn_error_envelope_witness :
  exists call st,
    start Sample.root Sample.minimalParams = Running call st /\
    let failed :=
      run st ([] ++ [ErrorEvent (ErrorObject (Js.lit "spawn devvit ENOENT"))]) in
    promise failed =
      Some {| content :=
                [{| type := Js.lit "text";
                    text := Js.lit "Failed to execute devvit logs: "
                              ++ Js.lit "spawn devvit ENOENT" |}];
              isError := true |} /\
    result (handler Sample.root Sample.minimalParams
              ([] ++ ErrorEvent (ErrorObject (Js.lit "spawn devvit ENOENT"))
                  :: [Close (Some (-2)%Z); TimerFired])) = promise failed /\
    timer failed = timer (run st []) /\
    killed failed = killed (run st []) /\
    (Forall (fun ev => isData ev = true) [] ->
     timer failed = Some 2000%N /\
     killed (step failed TimerFired) = [SIGINT]) /\
    (forall code : option Z,
       timer (step failed (Close code)) = None /\
       promise (step failed (Close code)) = promise failed /\
       logged (step failed (Close code)) =
         logged failed ++ [match code with
                           | Some 0%Z => InfoCompleted
                           | _ => WarnExited code
                           end]).
Proof.
  eexists; eexists; split; [reflexivity|].
  apply (spawn_error_envelope Sample.root Sample.minimalParams _ _ []
           [Close (Some (-2)%Z); TimerFired]
           (ErrorObject (Js.lit "spawn devvit ENOENT")) eq_refl).
  constructor.
Defined.

(** ** One envelope per invocation *)

Lemma handler_result (root : option jsstring) (p : Params)
  (call : SpawnCall) (st : Child) (evs : list Event) :
  start root p = Running call st ->
  result (handler root p evs) = promise (run st evs).
Proof. intros Hst. unfold handler. now rewrite Hst. Qed.

Lemma invoke_running (spawn : SpawnCall -> option JsError)
  (root : option jsstring) (p : Params) (call : SpawnCall) (st : Child)
  (evs : list Event) :
  start root p = Running call st -> spawn call = None ->
  invoke spawn root p evs =
    {| children := [call];
       outcome := match promise (run st evs) with
                  | Some e => Returned e
                  | None => Waiting
                  end |}.
Proof. intros Hst Hsp. unfold invoke. now rewrite Hst, Hsp. Qed.

(** C9, as stated, fails: not every invocation produces an envelope. With
    a NUL code unit in the subreddit, which the schema accepts, Node's
    [spawn] throws and the handler's promise rejects: no trace of events
    leads to an envelope. And with a child that emits neither an error nor
    a close event, whatever else happens (data, the timer and its
    [SIGINT]), the caller keeps waiting. *)
Lemma envelope_not_guaranteed :
  ~ (forall (spawn : SpawnCall -> option JsError) (root : option jsstring)
            (p : Params),
       exists (evs : list Event) (e : Envelope),
         outcome (invoke spawn root p evs) = Returned e) /\
  (forall evs : list Event,
     Forall (fun ev => resolves ev = false) evs ->
     outcome (invoke nulCheck Sample.root Sample.minimalParams evs) = Waiting).
Proof.
  split.
  - intros H.
    destruct (H nulCheck Sample.root Sample.nulParams) as (evs & e & E).
    discriminate E.
  - intros evs Hq.
    assert (Hst : exists call st,
              start Sample.root Sample.minimalParams = Running call st
              /\ nulCheck call = None)
      by (eexists; eexists; split; reflexivity).
    destruct Hst as (call & st & Hst & Hsp).
    rewrite (invoke_running nulCheck _ _ call st evs Hst Hsp). simpl.
    now rewrite (pending_of_quiet _ _ call st evs Hst Hq).
Qed.

(** C9 (amended): an invocation delivers at most one envelope, by one
    path. Once the caller has an envelope, no later event (the timer, a
    close after an error, more data) replaces it. The early return delivers
    its envelope without spawning. When [spawn] returns a child, nothing is
    delivered while only data and the timer arrive, and the first error or
    close event delivers the envelope of its own callback, computed when it
    arrives. *)
Theorem one_envelope (spawn : SpawnCall -> option JsError)
  (root : option jsstring) (p : Params) :
  (forall (evs more : list Event) (e : Envelope),
     outcome (invoke spawn root p evs) = Returned e ->
     outcome (invoke spawn root p (evs ++ more)) = Returned e) /\
  (forall e : Envelope,
     start root p = Rejected e ->
     forall evs, invoke spawn root p evs
                 = {| children := []; outcome := Returned e |}) /\
  (forall (call : SpawnCall) (st : Child),
     start root p = Running call st -> spawn call = None ->
     forall (pre post : list Event) (ev : Event),
       Forall (fun x => resolves x = false) pre ->
       resolves ev = true ->
       exists e : Envelope,
         envelopeOf (run st pre) ev = Some e /\
         outcome (invoke spawn root p pre) = Waiting /\
         outcome (invoke spawn root p (pre ++ ev :: post)) = Returned e /\
         children (invoke spawn root p (pre ++ ev :: post)) = [call]).
Proof.
  split; [|split].
  - intros evs more e. unfold invoke.
    destruct (start root p) as [e0|call st]; [auto|].
    destruct (spawn call); [auto|]. simpl.
    destruct (promise (run st evs)) as [e1|] eqn:Hp; [|discriminate].
    intros E; injection E as ->.
    now rewrite run_app, (settled_run more _ e Hp).
  - intros e Hst evs. unfold invoke. now rewrite Hst.
  - intros call st Hst Hsp pre post ev Hpre Hev.
    destruct (envelopeOf_resolves (run st pre) ev Hev) as [e He].
    exists e. rewrite !(invoke_running spawn root p call st _ Hst Hsp). simpl.
    rewrite (pending_of_quiet root p call st pre Hst Hpre).
    repeat split; try assumption.
    rewrite (first_resolution st pre post ev e); try assumption; [reflexivity|].
    now destruct (start_running_inv root p call st Hst)
      as (_ & _ & _ & _ & _ & _ & Hp).
Qed.

Lemma one_envelope_witness :
  exists call st,
    start Sample.root Sample.minimalParams = Running call st /\
    nulCheck call = None /\
    exists e : Envelope,
      envelopeOf (run st [StdoutData (Js.lit "x"); TimerFired])
        (ErrorEvent (ErrorObject (Js.lit "kill EPERM"))) = Some e /\
      outcome (invoke nulCheck Sample.root Sample.minimalParams
                 [StdoutData (Js.lit "x"); TimerFired]) = Waiting /\
      outcome (invoke nulCheck Sample.root Sample.minimalParams
                 ([StdoutData (Js.lit "x"); TimerFired]
                    ++ ErrorEvent (ErrorObject (Js.lit "kill EPERM"))
                    :: [Close None; TimerFired])) = Returned e /\
      children (invoke nulCheck Sample.root Sample.minimalParams
                  ([StdoutData (Js.lit "x"); TimerFired]
                     ++ ErrorEvent (ErrorObject (Js.lit "kill EPERM"))
                     :: [Close None; TimerFired])) = [call].
Proof.
  eexists; eexists; split; [reflexivity|]. split; [reflexivity|].
  apply (proj2 (proj2 (one_envelope nulCheck Sample.root Sample.minimalParams))
           _ _ eq_refl eq_refl
           [StdoutData (Js.lit "x"); TimerFired] [Close None; TimerFired]
           (ErrorEvent (ErrorObject (Js.lit "kill EPERM")))).
  - repeat constructor.
  - reflexivity.
Defined.

(** X8: the caller is left waiting exactly when the early return was not
    taken, [spawn] returned a child, and the trace holds neither an error
    nor a close event; data and the timer, however many, never settle the
    promise. *)
Theorem pending_iff (spawn : SpawnCall -> option JsError)
  (root : option jsstring) (p : Params) (evs : list Event) :
  outcome (invoke spawn root p evs) = Waiting <->
  exists call st,
    start root p = Running call st /\ spawn call = None /\
    Forall (fun x => resolves x = false) evs.
Proof.
  unfold invoke.
  destruct (start root p) as [e0|call st] eqn:Hst.
  - split; [discriminate|]. intros (c & s & E & _). discriminate E.
  - destruct (spawn call) as [err|] eqn:Hsp.
    + split; [discriminate|]. intros (c & s & E & Hc & _).
      injection E as <- <-. congruence.
    + simpl. rewrite <- (handler_result root p call st evs Hst).
      destruct (result_running root p call st evs Hst)
        as [[Hq ->]|(pre & ev & post & e' & -> & Hpre & He & ->)].
      * split; [|reflexivity]. intros _. exists call, st. auto.
      * split; [discriminate|]. intros (_ & _ & _ & _ & Hq). exfalso.
        apply Forall_app in Hq as [_ Hq].
        inversion Hq as [|? ? Hev _]; subst.
        destruct ev; simpl in *; discriminate.
Qed.

Lemma pending_iff_witness :
  outcome (invoke nulCheck Sample.root Sample.minimalParams
             [StdoutData (Js.lit "x"); TimerFired; TimerFired]) = Waiting /\
  outcome (invoke nulCheck Sample.root Sample.nulParams
             [StdoutData (Js.lit "x"); TimerFired; TimerFired]) <> Waiting.
Proof.
  split.
  - apply (proj2 (pending_iff nulCheck Sample.root Sample.minimalParams
                    [StdoutData (Js.lit "x"); TimerFired; TimerFired])).
    eexists; eexists. split; [reflexivity|]. split; [reflexivity|].
    repeat constructor.
  - intros H.
    apply (proj1 (pending_iff nulCheck Sample.root Sample.nulParams
                    [StdoutData (Js.lit "x"); TimerFired; TimerFired])) in H.
    destruct H as (call & st & Hst & Hsp & _).
    injection Hst as <- _. discriminate Hsp.
Defined.
